(** * toyolo: SoccerNet tracking annotations to YOLO polygon labels

    A shallow embedding of [src/toyolo.py] and the properties of its
    configuration parsing, role classification, geometry and label writing.

    Conventions of the embedding.
    - Python [int] is [Z]; Python [str] is [string] (the characters that
      matter here are ASCII).
    - A Python [float] is a binary64 value, carried as a [spec_float] in
      canonical form; [int / int] is the correctly rounded quotient.
    - A raised exception is the [Raise] outcome of [result]; the label
      directory is an explicit store threaded through the writer.
    - A [dict] that is iterated ([tracklets], [id_map]) is an
      insertion-ordered association list with unique keys; a mapping that is
      only looked up (a parsed INI file) is a [gmap]. *)

From Stdlib Require Import ZArith QArith Qabs Qpower Lia Lqa.
From Stdlib Require Import String Ascii List Bool.
From Stdlib Require Import DecimalString.
From Stdlib Require Import Floats.SpecFloat.
From stdpp Require Import base gmap strings.

Import ListNotations.
Local Open Scope string_scope.
Local Open Scope list_scope.
Local Open Scope Z_scope.

(** ** Exceptions and outcomes *)

(** The first group are the built-in exceptions the script can raise.  The
    second group are the error names of the specification's taxonomy; no
    definition below ever produces one of them. *)
Inductive exn : Set :=
  | KeyError
  | ValueError
  | IndexError
  | ZeroDivisionError
  | OverflowError
  | ConfigError
  | MalformedTableError
  | UnknownTrackError
  | InvalidDimension.

Inductive result (A : Type) : Type :=
  | Ok (a : A)
  | Raise (e : exn).
Arguments Ok {A} a.
Arguments Raise {A} e.

Definition rbind {A B} (r : result A) (k : A -> result B) : result B :=
  match r with
  | Ok a => k a
  | Raise e => Raise e
  end.

Declare Scope result_scope.
Delimit Scope result_scope with result.
Notation "x <- r ;; k" := (rbind r (fun x => k))
  (at level 100, r at next level, right associativity) : result_scope.
Local Open Scope result_scope.

Definition is_ok {A} (r : result A) : bool :=
  match r with Ok _ => true | Raise _ => false end.

(** [for x in xs: acc = body(acc, x)], stopping at the first exception. *)
Fixpoint foldM {A B} (body : A -> B -> result A) (acc : A) (xs : list B)
  : result A :=
  match xs with
  | [] => Ok acc
  | x :: xs' => acc' <- body acc x ;; foldM body acc' xs'
  end.

(** ** Strings *)

Module PyStr.

Definition newline : string := String (ascii_of_nat 10) EmptyString.

(** [sub in s] *)
Fixpoint contains (sub s : string) : bool :=
  String.prefix sub s
  || match s with
     | EmptyString => false
     | String _ s' => contains sub s'
     end.

Definition lower_ascii (c : ascii) : ascii :=
  let n := nat_of_ascii c in
  if ((65 <=? n) && (n <=? 90))%nat then ascii_of_nat (n + 32) else c.

(** [s.lower()] on ASCII text *)
Fixpoint lower (s : string) : string :=
  match s with
  | EmptyString => EmptyString
  | String c s' => String (lower_ascii c) (lower s')
  end.

(** [sep.join(xs)] *)
Fixpoint join (sep : string) (xs : list string) : string :=
  match xs with
  | [] => EmptyString
  | [x] => x
  | x :: xs' => x +:+ sep +:+ join sep xs'
  end.

(** [str(n)] for an [int] *)
Definition of_int (n : Z) : string := NilZero.string_of_int (Z.to_int n).

(** The characters [int()] skips at both ends of an ASCII string. *)
Definition is_space (c : ascii) : bool :=
  let n := nat_of_ascii c in
  ((n =? 32) || ((9 <=? n) && (n <=? 13)))%nat.

Fixpoint lstrip (l : list ascii) : list ascii :=
  match l with
  | c :: l' => if is_space c then lstrip l' else l
  | [] => []
  end.

Definition strip (l : list ascii) : list ascii :=
  rev (lstrip (rev (lstrip l))).

Definition digit_val (c : ascii) : option Z :=
  let n := nat_of_ascii c in
  if ((48 <=? n) && (n <=? 57))%nat then Some (Z.of_nat (n - 48)) else None.

(** The digits after the first one: a digit, or one underscore followed
    by a digit. *)
Fixpoint more_digits (acc : Z) (l : list ascii) : option Z :=
  match l with
  | [] => Some acc
  | c :: l' =>
      if Ascii.eqb c "_"%char then
        match l' with
        | d :: l'' =>
            match digit_val d with
            | Some v => more_digits (10 * acc + v) l''
            | None => None
            end
        | [] => None
        end
      else
        match digit_val c with
        | Some v => more_digits (10 * acc + v) l'
        | None => None
        end
  end.

Definition unsigned_literal (l : list ascii) : option Z :=
  match l with
  | d :: l' =>
      match digit_val d with
      | Some v => more_digits v l'
      | None => None
      end
  | [] => None
  end.

(** [int(s)] in base 10: surrounding whitespace, an optional sign, decimal
    digits with single underscores between them; anything else is a
    [ValueError].  (The interpreter's configurable limit on the number of
    digits is not part of the model.) *)
Definition to_int (s : string) : result Z :=
  let l := strip (list_ascii_of_string s) in
  let '(neg, body) :=
    match l with
    | c :: t =>
        if Ascii.eqb c "-"%char then (true, t)
        else if Ascii.eqb c "+"%char then (false, t)
        else (false, l)
    | [] => (false, l)
    end in
  match unsigned_literal body with
  | Some n => Ok (if neg then - n else n)
  | None => Raise ValueError
  end.

(** [os.path.basename(p)]: what follows the last slash. *)
Fixpoint basename_aux (cur : string) (p : string) : string :=
  match p with
  | EmptyString => cur
  | String c p' =>
      if Ascii.eqb c "/"%char then basename_aux p' p' else basename_aux cur p'
  end.
Definition basename (p : string) : string := basename_aux p p.

(** [s.split(sep)[0]] for a non-empty [sep]: the text before the first
    occurrence of [sep], or all of [s]. *)
Fixpoint before (sep s : string) : string :=
  if String.prefix sep s then EmptyString
  else match s with
       | EmptyString => EmptyString
       | String c s' => String c (before sep s')
       end.

Definition split_first (sep s : string) : result string :=
  match sep with
  | EmptyString => Raise ValueError
  | _ => Ok (before sep s)
  end.

End PyStr.

(** [range(a, b)] *)
Definition py_range (a b : Z) : list Z :=
  map (fun k => a + Z.of_nat k) (seq 0 (Z.to_nat (b - a))).

(** ** Insertion-ordered dictionaries with integer keys *)

Module PyDict.
Section Dict.
Context {V : Type}.

Definition t := list (Z * V).

Definition empty : t := [].

Fixpoint get (d : t) (k : Z) : option V :=
  match d with
  | [] => None
  | (k', v) :: d' => if Z.eqb k' k then Some v else get d' k
  end.

(** [d[k] = v]: a present key keeps its place, a new key goes last. *)
Fixpoint set (d : t) (k : Z) (v : V) : t :=
  match d with
  | [] => [(k, v)]
  | (k', v') :: d' =>
      if Z.eqb k' k then (k', v) :: d' else (k', v') :: set d' k v
  end.

(** [d[k]] *)
Definition getitem (d : t) (k : Z) : result V :=
  match get d k with
  | Some v => Ok v
  | None => Raise KeyError
  end.

Definition items (d : t) : list (Z * V) := d.
Definition keys (d : t) : list Z := map fst d.
Definition values (d : t) : list V := map snd d.
End Dict.
Arguments t V : clear implicits.
End PyDict.

(** ** Configuration files *)

(** A parsed INI file as [configparser] presents it: for each section, the
    table that [config[section][key]] consults, with option names stored
    lower-cased.  Reading the file itself is outside the model. *)
Abbreviation section_table := (gmap string string).
Abbreviation config_file := (gmap string (gmap string string)).

Definition optionxform (key : string) : string := PyStr.lower key.

(** [config[section]] *)
Definition config_getitem (config : config_file) (section : string)
  : result section_table :=
  match config !! section with
  | Some tbl => Ok tbl
  | None => Raise KeyError
  end.

(** [config[section][key]] on the section proxy *)
Definition section_getitem (tbl : section_table) (key : string)
  : result string :=
  match tbl !! optionxform key with
  | Some v => Ok v
  | None => Raise KeyError
  end.

(** [d[key]] on a plain [dict] of strings *)
Definition dict_getitem (d : section_table) (key : string) : result string :=
  match d !! key with
  | Some v => Ok v
  | None => Raise KeyError
  end.

(** The category chain of [parse_gameinfo] (lines 37-44). *)
Definition role_category (value : string) : Z :=
  if PyStr.contains "goalkeeper" value then 1
  else if PyStr.contains "player" value then 2
  else if PyStr.contains "referee" value then 3
  else 0.

(** One iteration of the loop of [parse_gameinfo]. *)
Definition tracklet_step (config : config_file)
    (acc : PyDict.t string * PyDict.t Z) (i : Z)
  : result (PyDict.t string * PyDict.t Z) :=
  let '(tracklets, id_map) := acc in
  let key := "trackletID_" +:+ PyStr.of_int i in
  tbl <- config_getitem config "Sequence" ;;
  value <- section_getitem tbl key ;;
  let id_map := PyDict.set id_map i (role_category value) in
  let tracklets := PyDict.set tracklets i value in
  Ok (tracklets, id_map).

Definition parse_gameinfo (config : config_file)
  : result (PyDict.t string * PyDict.t Z) :=
  tbl <- config_getitem config "Sequence" ;;
  s <- section_getitem tbl "num_tracklets" ;;
  num_tracklets <- PyStr.to_int s ;;
  foldM (tracklet_step config) (PyDict.empty, PyDict.empty)
        (py_range 1 (num_tracklets + 1)).

Definition parse_seqinfo (config : config_file) : result section_table :=
  config_getitem config "Sequence".

(** ** Floating point *)

(** Python's [float] is IEEE 754 binary64.  A value is a [spec_float] in the
    canonical form of the standard library's specification of binary64
    (53-bit significand, or exponent [-1074] for subnormal numbers). *)
Module PyFloat.

Definition prec : Z := 53.
Definition emax : Z := 1024.
Definition emin : Z := -1074.

(** [d * 2^e <= n], for either sign of [e] *)
Definition scaled_le (d e n : Z) : bool :=
  if 0 <=? e then d * 2 ^ e <=? n else d <=? n * 2 ^ (- e).

(** [floor (log2 (n / d))] for positive [n] and [d] *)
Definition ilog2 (n d : Z) : Z :=
  let e0 := Z.log2 n - Z.log2 d in
  if scaled_le d e0 n then e0 else e0 - 1.

(** The integer nearest to [n / d], ties to even ([0 <= n], [0 < d]). *)
Definition div_nearest_even (n d : Z) : Z :=
  let q := n / d in
  let r := n mod d in
  match 2 * r ?= d with
  | Lt => q
  | Gt => q + 1
  | Eq => if Z.even q then q else q + 1
  end.

(** The significand of [n / d] at the exponent [ex]: the integer nearest
    to [n / (d * 2^ex)]. *)
Definition significand (n d ex : Z) : Z :=
  if 0 <=? ex then div_nearest_even n (d * 2 ^ ex)
  else div_nearest_even (n * 2 ^ (- ex)) d.

(** The binary64 nearest to [n / d] (positive [n], [d]) with sign [s],
    ties to even; [None] when it is beyond the largest finite value. *)
Definition round_ratio (s : bool) (n d : Z) : option spec_float :=
  let ex := Z.max (ilog2 n d - (prec - 1)) emin in
  let m := significand n d ex in
  let '(m, ex) :=
    if m =? 2 ^ prec then (2 ^ (prec - 1), ex + 1) else (m, ex) in
  match m with
  | Zpos p =>
      if ex <=? emax - prec then Some (S754_finite s p ex) else None
  | _ => Some (S754_zero s)
  end.

(** [a / b] on [int]: the correctly rounded quotient, a signed zero for
    [a = 0], [ZeroDivisionError] for [b = 0] and [OverflowError] when the
    quotient is too large for a float. *)
Definition truediv (a b : Z) : result spec_float :=
  if b =? 0 then Raise ZeroDivisionError
  else
    let s := xorb (a <? 0) (b <? 0) in
    if a =? 0 then Ok (S754_zero s)
    else match round_ratio s (Z.abs a) (Z.abs b) with
         | Some f => Ok f
         | None => Raise OverflowError
         end.

(** The rational a float denotes. *)
Definition to_Q (f : spec_float) : Q :=
  match f with
  | S754_finite s m e =>
      let v := (inject_Z (Zpos m) * 2 ^ e)%Q in
      if s then Qopp v else v
  | _ => 0%Q
  end.

(** *** [repr] *)

(** [10^k <= n / d], for either sign of [k] *)
Definition pow10_le (k n d : Z) : bool :=
  if 0 <=? k then 10 ^ k * d <=? n else d <=? n * 10 ^ (- k).

(** [floor (log10 (n / d))], from the binary logarithm: 1233/4096 is
    [log10 2] to five places, so the estimate is off by at most one in the
    range of binary64. *)
Definition ilog10 (n d : Z) : Z :=
  let k0 := ((Z.log2 n - Z.log2 d) * 1233) / 4096 in
  if pow10_le (k0 + 1) n d then k0 + 1
  else if pow10_le k0 n d then k0
  else k0 - 1.

(** The float that the decimal literal [D * 10^k] denotes ([0 < D]): the
    nearest binary64, as [float("...")] and the parser of literals give it;
    [None] beyond the finite range. *)
Definition decimal (D k : Z) : option spec_float :=
  let '(n, d) := if 0 <=? k then (D * 10 ^ k, 1) else (D, 10 ^ (- k)) in
  round_ratio false n d.

(** Does the decimal [D * 10^k] read back as the float [m * 2^e]? *)
Definition reads_as (D k : Z) (m : positive) (e : Z) : bool :=
  match decimal D k with
  | Some (S754_finite _ m' e') => Pos.eqb m' m && Z.eqb e' e
  | _ => false
  end.

(** The two decimals with [n] significant digits around [num / den], at
    the scale [10^k]: the one that reads back as the float, the nearer
    when both do. *)
Definition digits_at (n k10 num den : Z) (m : positive) (e : Z)
  : option (Z * Z) :=
  let k := k10 - n + 1 in
  let '(N, D) :=
    if 0 <=? k then (num, den * 10 ^ k) else (num * 10 ^ (- k), den) in
  let lo := N / D in
  let hi := lo + 1 in
  match reads_as lo k m e, reads_as hi k m e with
  | true, true => Some (div_nearest_even N D, k)
  | true, false => Some (lo, k)
  | false, true => Some (hi, k)
  | false, false => None
  end.

(** The shortest decimal that reads back as the float: try 1, 2, ...
    significant digits; 17 always suffice. *)
Fixpoint shortest (fuel : nat) (n k10 num den : Z) (m : positive) (e : Z)
  : Z * Z :=
  match fuel with
  | O =>
      let k := k10 - n + 1 in
      (if 0 <=? k then div_nearest_even num (den * 10 ^ k)
       else div_nearest_even (num * 10 ^ (- k)) den, k)
  | S fuel' =>
      match digits_at n k10 num den m e with
      | Some r => r
      | None => shortest fuel' (n + 1) k10 num den m e
      end
  end.

(** Drop trailing zeros of the digit string, raising the scale. *)
Fixpoint strip_zeros (fuel : nat) (D k : Z) : Z * Z :=
  match fuel with
  | O => (D, k)
  | S fuel' =>
      if (D mod 10 =? 0) && (0 <? D) then strip_zeros fuel' (D / 10) (k + 1)
      else (D, k)
  end.

Fixpoint zeros (n : nat) : string :=
  match n with
  | O => EmptyString
  | S n' => String "0" (zeros n')
  end.

(** The digit string [ds] with the decimal point after [decpt] digits, in
    the layout of [repr]: exponent notation when [decpt <= -4] or
    [decpt > 16], positional notation with at least one digit after the
    point otherwise. *)
Definition layout (ds : string) (decpt : Z) : string :=
  let n := Z.of_nat (String.length ds) in
  if (decpt <=? -4) || (16 <? decpt) then
    let e10 := decpt - 1 in
    let frac := String.substring 1 (String.length ds - 1) ds in
    String.substring 0 1 ds
    +:+ (if 1 <? n then "." +:+ frac else EmptyString)
    +:+ "e" +:+ (if e10 <? 0 then "-" else "+")
    +:+ (if Z.abs e10 <? 10 then "0" else EmptyString)
    +:+ PyStr.of_int (Z.abs e10)
  else if decpt <=? 0 then
    "0." +:+ zeros (Z.to_nat (- decpt)) +:+ ds
  else if n <=? decpt then
    ds +:+ zeros (Z.to_nat (decpt - n)) +:+ ".0"
  else
    String.substring 0 (Z.to_nat decpt) ds +:+ "."
    +:+ String.substring (Z.to_nat decpt)
                         (String.length ds - Z.to_nat decpt) ds.

Definition repr_finite (m : positive) (e : Z) : string :=
  let '(num, den) :=
    if 0 <=? e then (Zpos m * 2 ^ e, 1) else (Zpos m, 2 ^ (- e)) in
  let k10 := ilog10 num den in
  let '(D, k) := shortest 16 1 k10 num den m e in
  let '(D, k) := strip_zeros 17 D k in
  let ds := PyStr.of_int D in
  layout ds (k + Z.of_nat (String.length ds)).

(** [repr(x)], which is also [str(x)], for a [float] *)
Definition repr (f : spec_float) : string :=
  match f with
  | S754_zero s => if s then "-0.0" else "0.0"
  | S754_infinity s => if s then "-inf" else "inf"
  | S754_nan => "nan"
  | S754_finite s m e => (if s then "-" else EmptyString) +:+ repr_finite m e
  end.


(** [float(n)] for an [int] in range: the nearest binary64 *)
Definition of_int (n : Z) : result spec_float := truediv n 1.

End PyFloat.

(** ** Geometry *)

Definition rectangle_to_polygon_normalized
    (x0 y0 width height img_width img_height : Z) : result (list spec_float) :=
  let '(x1, y1) := (x0 + width, y0) in
  let '(x2, y2) := (x1, y1 + height) in
  let '(x3, y3) := (x0, y0 + height) in
  x0_norm <- PyFloat.truediv x0 img_width ;;
  y0_norm <- PyFloat.truediv y0 img_height ;;
  x1_norm <- PyFloat.truediv x1 img_width ;;
  y1_norm <- PyFloat.truediv y1 img_height ;;
  x2_norm <- PyFloat.truediv x2 img_width ;;
  y2_norm <- PyFloat.truediv y2 img_height ;;
  x3_norm <- PyFloat.truediv x3 img_width ;;
  y3_norm <- PyFloat.truediv y3 img_height ;;
  Ok [x0_norm; y0_norm; x1_norm; y1_norm; x2_norm; y2_norm; x3_norm; y3_norm].

(** ** The ground-truth table *)

(** One row of [gt.txt] with the columns the script names. *)
Module Row.
Record t : Set := make {
  frame_id : Z;
  track_id : Z;
  x0 : Z;
  y0 : Z;
  width : Z;
  height : Z;
  gt : Z
}.
End Row.

(** [df.groupby("frame_id").get_group(frame_id)]: the rows of the frame in
    table order; a frame without rows has no group, which is a [KeyError]. *)
Definition get_group (df : list Row.t) (frame_id : Z) : result (list Row.t) :=
  match List.filter (fun r => Row.frame_id r =? frame_id) df with
  | [] => Raise KeyError
  | rows => Ok rows
  end.

(** ** The label directory *)

(** The directory [labels] as a map from file name to file content, and the
    commands that run against it: a command returns the new directory
    together with its value or the exception it raised. *)
Abbreviation store := (gmap string string).

Definition io (A : Type) : Type := store -> store * result A.

Definition io_ret {A} (a : A) : io A := fun st => (st, Ok a).

Definition io_bind {A B} (m : io A) (k : A -> io B) : io B :=
  fun st =>
    match m st with
    | (st', Ok a) => k a st'
    | (st', Raise e) => (st', Raise e)
    end.

Definition io_lift {A} (r : result A) : io A := fun st => (st, r).

Declare Scope io_scope.
Delimit Scope io_scope with io.
Notation "x <~ m ;; k" := (io_bind m (fun x => k))
  (at level 100, m at next level, right associativity) : io_scope.
Notation "m ;;; k" := (io_bind m (fun _ => k))
  (at level 100, right associativity) : io_scope.
Local Open Scope io_scope.

(** [open(path, "w")]: the file exists and is empty afterwards. *)
Definition open_w (path : string) : io unit :=
  fun st => (<[path := EmptyString]> st, Ok tt).

(** [file.write(text)] on the file opened at [path] *)
Definition file_write (path text : string) : io unit :=
  fun st => (<[path := default EmptyString (st !! path) +:+ text]> st, Ok tt).

(** [shutil.rmtree(label_dir)] if it exists, then [os.makedirs(label_dir)] *)
Definition recreate_labels : io unit := fun _ => (∅, Ok tt).

(** [for x in xs: body(x)] *)
Fixpoint io_for {B} (xs : list B) (body : B -> io unit) : io unit :=
  match xs with
  | [] => io_ret tt
  | x :: xs' => body x ;;; io_for xs' body
  end.

(** ** The label writer *)

(** [[key for key, value in tracklets.items() if value == "ball;1"][0]],
    with [IndexError] turned into [None]. *)
Definition first_item {A} (l : list A) : result A :=
  match l with
  | x :: _ => Ok x
  | [] => Raise IndexError
  end.

Definition ball_keys (tracklets : PyDict.t string) : list Z :=
  map fst (List.filter (fun kv => String.eqb (snd kv) "ball;1")
                  (PyDict.items tracklets)).

Definition ball_id_of (tracklets : PyDict.t string) : option Z :=
  match first_item (ball_keys tracklets) with
  | Ok key => Some key
  | Raise _ => None
  end.

(** [track != ball_id], where [ball_id] may be [None] *)
Definition differs (track : Z) (ball_id : option Z) : bool :=
  match ball_id with
  | Some b => negb (track =? b)
  | None => true
  end.

(** The text of one label line (lines 165-167). *)
Definition label_line (idt : Z) (polygon_coords : list spec_float) : string :=
  PyStr.of_int idt +:+ " "
  +:+ PyStr.join " " (map PyFloat.repr polygon_coords) +:+ PyStr.newline.

Section LabelWriter.
Variable ball_id : option Z.
Variable id_map : PyDict.t Z.
Variables im_width im_height : Z.

(** The body of the loop over the rows of a frame (lines 154-167). *)
Definition write_row (label_spath : string) (row : Row.t) : io unit :=
  if differs (Row.track_id row) ball_id then
    idt <~ io_lift (PyDict.getitem id_map (Row.track_id row)) ;;
    polygon_coords <~
      io_lift (rectangle_to_polygon_normalized
                 (Row.x0 row) (Row.y0 row) (Row.width row) (Row.height row)
                 im_width im_height) ;;
    file_write label_spath (label_line idt polygon_coords)
  else io_ret tt.

(** The body of the loop over the images (lines 133-167). *)
Definition process_image (df : list Row.t) (ext img_path : string)
  : io unit :=
  fname <~ io_lift (PyStr.split_first ext (PyStr.basename img_path)) ;;
  frame_id <~ io_lift (PyStr.to_int fname) ;;
  temp_df <~ io_lift (get_group df frame_id) ;;
  let label_spath := fname +:+ ".txt" in
  open_w label_spath ;;;
  io_for temp_df (write_row label_spath).
End LabelWriter.

(** [process_data] on the parsed [gameinfo.ini] and [seqinfo.ini], the table
    read from [gt/gt.txt] and the image paths that [glob] returns. *)
Definition process_data (gameinfo seqinfo_ini : config_file)
    (df : list Row.t) (img_paths : list string) : io unit :=
  parsed <~ io_lift (parse_gameinfo gameinfo) ;;
  let '(tracklets, id_map) := parsed in
  let ball_id := ball_id_of tracklets in
  seqinfo <~ io_lift (parse_seqinfo seqinfo_ini) ;;
  im_width <~
    io_lift (s <- dict_getitem seqinfo "imwidth" ;; PyStr.to_int s) ;;
  im_height <~
    io_lift (s <- dict_getitem seqinfo "imheight" ;; PyStr.to_int s) ;;
  ext <~ io_lift (dict_getitem seqinfo "imext") ;;
  imdir <~ io_lift (dict_getitem seqinfo "imdir") ;;
  recreate_labels ;;;
  io_for img_paths (process_image ball_id id_map im_width im_height df ext).

(** * Definitions used in the statements *)

(** [sub] occurs in [s]: some text, then [sub], then some text. *)
Definition occurs_in (sub s : string) : Prop :=
  exists pre post : string, s = pre +:+ sub +:+ post.

(** In [range(a, b)] every element is below the ones after it. *)
Inductive ascending : list Z -> Prop :=
  | ascending_nil : ascending []
  | ascending_cons k ks :
      (forall k', In k' ks -> k < k') -> ascending ks -> ascending (k :: ks).

(** The option name under which [config["Sequence"][f"trackletID_{i}"]]
    finds its value. *)
Definition tracklet_key (i : Z) : string :=
  optionxform ("trackletID_" +:+ PyStr.of_int i).

(** The role strings of the tracklets [ks], if every one of them has its
    key in the table. *)
Fixpoint role_strings (tbl : section_table) (ks : list Z)
  : option (list string) :=
  match ks with
  | [] => Some []
  | i :: ks' =>
      match tbl !! tracklet_key i, role_strings tbl ks' with
      | Some v, Some vs => Some (v :: vs)
      | _, _ => None
      end
  end.

(** A magnitude with the sign bit of a float. *)
Definition signed (s : bool) (q : Q) : Q := if s then (- q)%Q else q.

(** *** The standard library's specification of binary64, for comparison *)

(** [float(n)] by the standard library's rounding of an integer. *)
Definition ieee_of_int (n : Z) : spec_float :=
  binary_normalize PyFloat.prec PyFloat.emax n 0 false.

Definition float_eqb (x y : spec_float) : bool :=
  match x, y with
  | S754_zero s, S754_zero s' => Bool.eqb s s'
  | S754_finite s m e, S754_finite s' m' e' =>
      Bool.eqb s s' && Pos.eqb m m' && Z.eqb e e'
  | _, _ => false
  end.

(** [a / b] is the IEEE quotient of [float(a)] and [float(b)], in canonical
    form; it fails exactly for [b = 0]. *)
Definition agrees_with_ieee (a b : Z) : bool :=
  match PyFloat.truediv a b with
  | Ok f =>
      float_eqb f (SFdiv PyFloat.prec PyFloat.emax
                         (ieee_of_int a) (ieee_of_int b))
      && valid_binary PyFloat.prec PyFloat.emax f
  | Raise _ => b =? 0
  end.

(** [repr(a / b)], or the empty string when the division raises. *)
Definition repr_of_quotient (ab : Z * Z) : string :=
  match PyFloat.truediv (fst ab) (snd ab) with
  | Ok f => PyFloat.repr f
  | Raise _ => EmptyString
  end.

(** *** Example inputs *)

(** The role registry of the specification's example, as [gameinfo.ini]
    holds it. *)
Definition example_gameinfo : config_file :=
  {[ "Sequence" :=
       {[ "num_tracklets" := "4";
          "trackletid_1" := "goalkeeper;1";
          "trackletid_2" := "player;1";
          "trackletid_3" := "player;2";
          "trackletid_4" := "ball;1" ]} ]}.

Definition example_registry : PyDict.t string :=
  [(1, "goalkeeper;1"); (2, "player;1"); (3, "player;2"); (4, "ball;1")].




(** The sequence metadata of the examples: a 100 x 100 image sequence. *)
Definition example_seqinfo : config_file :=
  {[ "Sequence" :=
       {[ "imwidth" := "100"; "imheight" := "100";
          "imext" := ".jpg"; "imdir" := "img1" ]} ]}.

Definition example_row : Row.t := Row.make 5 2 0 0 10 10 1.

Definition example_line : string :=
  "2 0.0 0.0 0.1 0.0 0.1 0.1 0.0 0.1" +:+ PyStr.newline.

(** The polygon of [example_row] in a 100 x 100 image: 0.0 and 0.1. *)
Definition example_polygon : list spec_float :=
  let z := S754_zero false in
  let t := S754_finite false 7205759403792794 (-56) in
  [z; z; t; z; t; t; z; t].

(** Move [inject_Z] inside sums and products. *)
Ltac push_inject H :=
  repeat first
    [ progress unfold Z.sub in H | rewrite inject_Z_plus in H
    | rewrite inject_Z_mult in H | rewrite inject_Z_opp in H ].

(** *** The label file and the settings of a sequence *)

(** The content of a file that holds the given lines, in order. *)
Definition file_text (lines : list string) : string :=
  fold_right String.append EmptyString lines.

(** The line that a row of a known track with a polygon in range writes. *)
Definition writes_line (id_map : PyDict.t Z) (im_width im_height : Z)
    (row : Row.t) (line : string) : Prop :=
  exists (idt : Z) (polygon_coords : list spec_float),
    PyDict.get id_map (Row.track_id row) = Some idt
    /\ rectangle_to_polygon_normalized
         (Row.x0 row) (Row.y0 row) (Row.width row) (Row.height row)
         im_width im_height = Ok polygon_coords
    /\ line = label_line idt polygon_coords.

(** The name of the label file of an image (lines 133 and 151). *)
Definition label_name (ext img_path : string) : result string :=
  fname <- PyStr.split_first ext (PyStr.basename img_path) ;;
  Ok (fname +:+ ".txt").

(** What [process_data] reads from the two INI files before it touches
    the label directory (lines 110-122). *)
Record settings : Type := make_settings {
  set_ball_id : option Z;
  set_id_map : PyDict.t Z;
  set_im_width : Z;
  set_im_height : Z;
  set_ext : string
}.

Definition read_settings (gameinfo seqinfo_ini : config_file)
  : result settings :=
  parsed <- parse_gameinfo gameinfo ;;
  seqinfo <- parse_seqinfo seqinfo_ini ;;
  im_width <- (s <- dict_getitem seqinfo "imwidth" ;; PyStr.to_int s) ;;
  im_height <- (s <- dict_getitem seqinfo "imheight" ;; PyStr.to_int s) ;;
  ext <- dict_getitem seqinfo "imext" ;;
  imdir <- dict_getitem seqinfo "imdir" ;;
  Ok (make_settings (ball_id_of (fst parsed)) (snd parsed)
                    im_width im_height ext).

(** The loop of [process_data] over the images, for given settings. *)
Definition process_images (c : settings) (df : list Row.t)
    (img_paths : list string) : io unit :=
  io_for img_paths
    (process_image (set_ball_id c) (set_id_map c)
                   (set_im_width c) (set_im_height c) df (set_ext c)).


(** Every character of the string passes the test. *)
Definition all_chars (P : ascii -> bool) (s : string) : bool :=
  forallb P (list_ascii_of_string s).

(** No character of the string is white space. *)
Definition has_no_space (s : string) : bool :=
  all_chars (fun c => negb (PyStr.is_space c)) s.

(** The characters that [str.lower] leaves alone. *)
Definition is_lower_fixed (c : ascii) : bool :=
  Ascii.eqb (PyStr.lower_ascii c) c.

(** A decimal digit or the minus sign. *)
Definition is_int_char (c : ascii) : bool :=
  let n := nat_of_ascii c in
  (((48 <=? n) && (n <=? 57)) || (n =? 45))%nat.

(** * Properties *)

(** ** Substrings *)

Lemma prefix_app (s1 s2 : string) :
  String.prefix s1 s2 = true <-> exists post, s2 = s1 +:+ post.
Proof.
  revert s2. induction s1 as [|c s1 IH]; intros s2.
  - split; [intros _; now exists s2 | now destruct s2].
  - destruct s2 as [|c' s2]; simpl.
    + split; [discriminate | intros [post H]; discriminate].
    + destruct (Ascii.ascii_dec c c') as [->|Hne].
      * rewrite IH. split; intros [post H]; exists post.
        -- now rewrite H.
        -- simpl in H. now injection H.
      * split; [discriminate|].
        intros [post H]. simpl in H. injection H as H1 _. congruence.
Qed.

Lemma contains_occurs (sub s : string) :
  PyStr.contains sub s = true <-> occurs_in sub s.
Proof.
  induction s as [|c s IH].
  - change (PyStr.contains sub EmptyString)
      with (String.prefix sub EmptyString || false).
    rewrite orb_false_r, prefix_app. split.
    + intros [post H]. now exists EmptyString, post.
    + intros [[|c pre] [post H]]; [now exists post | discriminate].
  - change (PyStr.contains sub (String c s))
      with (String.prefix sub (String c s) || PyStr.contains sub s).
    rewrite orb_true_iff, prefix_app, IH. split.
    + intros [[post H] | [pre [post H]]].
      * now exists EmptyString, post.
      * exists (String c pre), post. simpl. now rewrite H.
    + intros [[|c' pre] [post H]].
      * left. now exists post.
      * right. simpl in H. injection H as _ H. now exists pre, post.
Qed.

Lemma contains_not_occurs (sub s : string) :
  PyStr.contains sub s = false <-> ~ occurs_in sub s.
Proof.
  rewrite <- contains_occurs. destruct (PyStr.contains sub s); split;
    congruence.
Qed.

(** ** Role classification *)

(** C3. The category of a role string is decided by the first of
    "goalkeeper", "player", "referee" (in this order) that occurs in it as a
    substring, compared character by character: 1, 2, 3 respectively, and 0
    when none occurs.  The classifier is a total function, so exactly one of
    the four cases applies and it never fails.  A capitalised "Goalkeeper"
    does not match.  On the example registry the category map is
    {1:1, 2:2, 3:2, 4:0}. *)
Theorem role_category_first_match :
  (forall value : string,
      (occurs_in "goalkeeper" value /\ role_category value = 1)
      \/ (~ occurs_in "goalkeeper" value /\ occurs_in "player" value
          /\ role_category value = 2)
      \/ (~ occurs_in "goalkeeper" value /\ ~ occurs_in "player" value
          /\ occurs_in "referee" value /\ role_category value = 3)
      \/ (~ occurs_in "goalkeeper" value /\ ~ occurs_in "player" value
          /\ ~ occurs_in "referee" value /\ role_category value = 0))
  /\ role_category "Goalkeeper;1" = 0
  /\ map (fun kv => (fst kv, role_category (snd kv))) example_registry
     = [(1, 1); (2, 2); (3, 2); (4, 0)]
  /\ parse_gameinfo example_gameinfo
     = Ok (example_registry, [(1, 1); (2, 2); (3, 2); (4, 0)]).
Proof.
  split; [|repeat split; vm_compute; reflexivity].
  intros value. unfold role_category.
  destruct (PyStr.contains "goalkeeper" value) eqn:Hg.
  { left. split; [now apply contains_occurs | reflexivity]. }
  apply contains_not_occurs in Hg. right.
  destruct (PyStr.contains "player" value) eqn:Hp.
  { left. repeat split; [assumption | now apply contains_occurs]. }
  apply contains_not_occurs in Hp. right.
  destruct (PyStr.contains "referee" value) eqn:Hr.
  { left. repeat split; [assumption .. | now apply contains_occurs]. }
  apply contains_not_occurs in Hr. right. now repeat split.
Qed.

(** ** [range] and dictionaries *)

Lemma py_range_nil (a b : Z) : b <= a -> py_range a b = [].
Proof.
  intros H. unfold py_range. replace (Z.to_nat (b - a)) with O by lia.
  reflexivity.
Qed.

Lemma py_range_cons (a b : Z) :
  a < b -> py_range a b = a :: py_range (a + 1) b.
Proof.
  intros H. unfold py_range.
  replace (Z.to_nat (b - a)) with (S (Z.to_nat (b - (a + 1)))) by lia.
  cbn [seq map]. f_equal; [lia|].
  rewrite <- seq_shift, map_map. apply map_ext. intros k. lia.
Qed.

Lemma py_range_ind (P : Z -> Z -> Prop) :
  (forall a b, b <= a -> P a b) ->
  (forall a b, a < b -> P (a + 1) b -> P a b) ->
  forall a b, P a b.
Proof.
  intros Hnil Hcons a b.
  remember (Z.to_nat (b - a)) as n eqn:Hn. revert a Hn.
  induction n as [|n IH]; intros a Hn.
  - apply Hnil. lia.
  - apply Hcons; [lia|]. apply IH. lia.
Qed.

Lemma In_py_range (a b k : Z) : In k (py_range a b) <-> a <= k < b.
Proof.
  revert a b.
  apply (py_range_ind (fun a b => In k (py_range a b) <-> a <= k < b)).
  - intros a b H. rewrite py_range_nil by assumption. simpl. lia.
  - intros a b H IH. rewrite py_range_cons by assumption. simpl.
    rewrite IH. lia.
Qed.

Lemma py_range_NoDup (a b : Z) : List.NoDup (py_range a b).
Proof.
  revert a b. apply py_range_ind.
  - intros a b H. rewrite py_range_nil by assumption. constructor.
  - intros a b H IH. rewrite py_range_cons by assumption.
    constructor; [|assumption]. rewrite In_py_range. lia.
Qed.

Lemma py_range_ascending (a b : Z) : ascending (py_range a b).
Proof.
  revert a b. apply py_range_ind.
  - intros a b H. rewrite py_range_nil by assumption. constructor.
  - intros a b H IH. rewrite py_range_cons by assumption.
    constructor; [|assumption]. intros k' Hk'. apply In_py_range in Hk'. lia.
Qed.

Section DictFacts.
Context {V : Type}.
Implicit Types (d : PyDict.t V) (k : Z) (v : V).

Lemma get_In d k v : PyDict.get d k = Some v -> In (k, v) d.
Proof.
  induction d as [|[k' v'] d IH]; simpl; [discriminate|].
  destruct (Z.eqb_spec k' k) as [->|Hne].
  - intros [= ->]. now left.
  - intros H. right. now apply IH.
Qed.


(** Assigning to a key that is not there appends the item. *)
Lemma set_fresh d k v :
  ~ In k (PyDict.keys d) -> PyDict.set d k v = d ++ [(k, v)].
Proof.
  induction d as [|[k' v'] d IH]; simpl; [reflexivity|].
  intros H. destruct (Z.eqb_spec k' k) as [->|Hne]; [tauto|].
  rewrite IH; tauto.
Qed.

Lemma keys_app d1 d2 :
  PyDict.keys (d1 ++ d2) = PyDict.keys d1 ++ PyDict.keys d2.
Proof. apply map_app. Qed.

Lemma keys_combine (ks : list Z) (vs : list V) :
  length vs = length ks -> PyDict.keys (combine ks vs) = ks.
Proof.
  revert vs. induction ks as [|k ks IH]; intros [|v vs]; simpl;
    try discriminate; try reflexivity.
  intros [= H]. f_equal. now apply IH.
Qed.

Lemma get_combine_map {W : Type} (f : V -> W) (ks : list Z) (vs : list V)
    k v :
  List.NoDup ks -> In (k, v) (combine ks vs) ->
  PyDict.get (combine ks (map f vs)) k = Some (f v).
Proof.
  revert vs. induction ks as [|k0 ks IH]; intros [|v0 vs] Hnd Hin;
    simpl in *; try tauto.
  inversion Hnd as [|? ? Hk0 Hnd']; subst.
  destruct Hin as [[= -> ->]|Hin].
  - now rewrite Z.eqb_refl.
  - destruct (Z.eqb_spec k0 k) as [->|Hne].
    + exfalso. apply Hk0. eapply in_combine_l, Hin.
    + now apply IH.
Qed.
End DictFacts.

(** ** [parse_gameinfo] *)

Lemma role_strings_length tbl ks vs :
  role_strings tbl ks = Some vs -> length vs = length ks.
Proof.
  revert vs. induction ks as [|i ks IH]; simpl; intros vs.
  - now intros [= <-].
  - destruct (tbl !! tracklet_key i); [|discriminate].
    destruct (role_strings tbl ks); [|discriminate].
    intros [= <-]. simpl. f_equal. now apply IH.
Qed.



Lemma tracklet_step_eq config tbl tracklets id_map i :
  config !! "Sequence" = Some tbl ->
  tracklet_step config (tracklets, id_map) i =
  match tbl !! tracklet_key i with
  | Some value =>
      Ok (PyDict.set tracklets i value,
          PyDict.set id_map i (role_category value))
  | None => Raise KeyError
  end.
Proof.
  intros Hsec. unfold tracklet_step, config_getitem, section_getitem.
  rewrite Hsec. cbn [rbind]. fold (tracklet_key i).
  now destruct (tbl !! tracklet_key i).
Qed.

(** The loop of [parse_gameinfo] over fresh, distinct keys: it stops with
    [KeyError] at the first missing key and otherwise appends one item per
    key to both dictionaries, in loop order. *)
Lemma foldM_tracklets config tbl :
  config !! "Sequence" = Some tbl ->
  forall ks tracklets id_map,
    List.NoDup ks ->
    (forall k, In k ks -> ~ In k (PyDict.keys tracklets)) ->
    (forall k, In k ks -> ~ In k (PyDict.keys id_map)) ->
    foldM (tracklet_step config) (tracklets, id_map) ks =
    match role_strings tbl ks with
    | Some vs =>
        Ok (tracklets ++ combine ks vs,
            id_map ++ combine ks (map role_category vs))
    | None => Raise KeyError
    end.
Proof.
  intros Hsec ks. induction ks as [|i ks IH]; intros tracklets id_map Hnd Ht Hm.
  - simpl. now rewrite !app_nil_r.
  - inversion Hnd as [|? ? Hi Hnd']; subst.
    cbn [foldM role_strings]. rewrite (tracklet_step_eq _ tbl) by assumption.
    destruct (tbl !! tracklet_key i) as [v|]; [|reflexivity].
    cbn [rbind]. rewrite IH; try assumption.
    + destruct (role_strings tbl ks) as [vs|]; [|reflexivity].
      rewrite !set_fresh by (first [apply Ht | apply Hm]; now left).
      cbn [map combine]. now rewrite <- !app_assoc.
    + intros k Hk. rewrite set_fresh by (apply Ht; now left).
      rewrite keys_app, in_app_iff. simpl.
      intros [H|[->|[]]]; [|tauto]. apply (Ht k); [now right | assumption].
    + intros k Hk. rewrite set_fresh by (apply Hm; now left).
      rewrite keys_app, in_app_iff. simpl.
      intros [H|[->|[]]]; [|tauto]. apply (Hm k); [now right | assumption].
Qed.

(** [parse_gameinfo], outcome by outcome. *)
Lemma parse_gameinfo_eq (config : config_file) :
  parse_gameinfo config =
  match config !! "Sequence" with
  | None => Raise KeyError
  | Some tbl =>
      match tbl !! "num_tracklets" with
      | None => Raise KeyError
      | Some s =>
          match PyStr.to_int s with
          | Raise e => Raise e
          | Ok n =>
              let ks := py_range 1 (n + 1) in
              match role_strings tbl ks with
              | None => Raise KeyError
              | Some vs =>
                  Ok (combine ks vs, combine ks (map role_category vs))
              end
          end
      end
  end.
Proof.
  unfold parse_gameinfo, config_getitem.
  destruct (config !! "Sequence") as [tbl|] eqn:Hsec; [|reflexivity].
  cbn [rbind]. unfold section_getitem.
  change (optionxform "num_tracklets") with "num_tracklets".
  destruct (tbl !! "num_tracklets") as [s|]; [|reflexivity].
  cbn [rbind]. destruct (PyStr.to_int s) as [n|e]; [|reflexivity].
  cbn [rbind]. rewrite (foldM_tracklets config tbl Hsec).
  - reflexivity.
  - apply py_range_NoDup.
  - intros k _ [].
  - intros k _ [].
Qed.

Lemma role_category_range (value : string) :
  role_category value = 0 \/ role_category value = 1
  \/ role_category value = 2 \/ role_category value = 3.
Proof.
  unfold role_category.
  destruct (PyStr.contains "goalkeeper" value); [tauto|].
  destruct (PyStr.contains "player" value); [tauto|].
  destruct (PyStr.contains "referee" value); tauto.
Qed.

Lemma get_combine (ks : list Z) (vs : list string) k v :
  List.NoDup ks -> In (k, v) (combine ks vs) ->
  PyDict.get (combine ks vs) k = Some v.
Proof.
  intros Hnd Hin. rewrite <- (map_id vs) at 1.
  now apply (get_combine_map (fun x => x)).
Qed.

(** ** The ball track *)

Lemma ball_keys_cons k v (d : PyDict.t string) :
  ball_keys ((k, v) :: d) =
  if String.eqb v "ball;1" then k :: ball_keys d else ball_keys d.
Proof.
  unfold ball_keys, PyDict.items. cbn [List.filter snd].
  now destruct (String.eqb v "ball;1").
Qed.

(** The resolved ball ID is the key of an item whose value is exactly
    "ball;1". *)
Lemma ball_id_of_Some (tracklets : PyDict.t string) (b : Z) :
  ball_id_of tracklets = Some b -> In (b, "ball;1") tracklets.
Proof.
  unfold ball_id_of. induction tracklets as [|[k v] d IH].
  - discriminate.
  - rewrite ball_keys_cons. destruct (String.eqb_spec v "ball;1") as [->|Hne].
    + simpl. intros [= ->]. now left.
    + intros H. right. now apply IH.
Qed.

Lemma ball_id_of_None (tracklets : PyDict.t string) :
  ball_id_of tracklets = None <->
  forall k v, In (k, v) tracklets -> v <> "ball;1".
Proof.
  unfold ball_id_of. induction tracklets as [|[k v] d IH].
  - split; [intros _ k v [] | reflexivity].
  - rewrite ball_keys_cons. destruct (String.eqb_spec v "ball;1") as [->|Hne].
    + simpl. split; [discriminate|]. intros H.
      now destruct (H k "ball;1"); [left|].
    + rewrite IH. split.
      * intros H k' v' [[= <- <-]|Hin]; [assumption | now apply (H k')].
      * intros H k' v' Hin. apply (H k'). now right.
Qed.

(** With ascending keys, the first "ball;1" item has the least key among
    them. *)
Lemma ball_id_of_least (ks : list Z) (vs : list string) (k : Z) :
  ascending ks -> In (k, "ball;1") (combine ks vs) ->
  exists b, ball_id_of (combine ks vs) = Some b /\ b <= k
            /\ In (b, "ball;1") (combine ks vs).
Proof.
  intros Hasc. revert vs. induction Hasc as [|k0 ks Hlt Hasc IH];
    intros [|v0 vs] Hin; simpl in Hin; try tauto.
  cbn [combine]. unfold ball_id_of. rewrite ball_keys_cons.
  destruct (String.eqb_spec v0 "ball;1") as [->|Hne].
  - exists k0. simpl. repeat split; [|now left].
    destruct Hin as [[= ->]|Hin]; [lia|].
    apply in_combine_l in Hin. apply Hlt in Hin. lia.
  - destruct Hin as [[= _ Hv]|Hin]; [congruence|].
    destruct (IH vs Hin) as [b [Hb [Hle Hinb]]].
    exists b. repeat split; [exact Hb | exact Hle | now right].
Qed.

(** ** Failures and successes of [parse_gameinfo] *)




(** ** Keys, categories and the ball of a parsed registry *)

(** C10.  When [parse_gameinfo] succeeds, both dictionaries have the keys
    1..num_tracklets, in this order, and every category is 0, 1, 2 or 3.
    Every tracklet whose role string is "ball;1" has category 0; the ball ID
    is the least of their keys; a row of any other such tracklet is not
    skipped by the writer but written with category code 0. *)
Theorem parse_gameinfo_keys_and_ball
    (config : config_file) (tracklets : PyDict.t string) (id_map : PyDict.t Z) :
  parse_gameinfo config = Ok (tracklets, id_map) ->
  exists tbl s num_tracklets,
    config !! "Sequence" = Some tbl
    /\ tbl !! "num_tracklets" = Some s
    /\ PyStr.to_int s = Ok num_tracklets
    /\ PyDict.keys tracklets = py_range 1 (num_tracklets + 1)
    /\ PyDict.keys id_map = py_range 1 (num_tracklets + 1)
    /\ (forall k, In k (PyDict.keys id_map) <-> 1 <= k <= num_tracklets)
    /\ (forall c, In c (PyDict.values id_map) ->
                  c = 0 \/ c = 1 \/ c = 2 \/ c = 3)
    /\ (forall k, PyDict.get tracklets k = Some "ball;1" ->
        PyDict.get id_map k = Some 0
        /\ exists b,
            ball_id_of tracklets = Some b
            /\ b <= k
            /\ PyDict.get tracklets b = Some "ball;1"
            /\ (k <> b ->
                forall im_width im_height label_spath row,
                  Row.track_id row = k ->
                  write_row (Some b) id_map im_width im_height label_spath row
                  = (polygon_coords <~
                       io_lift (rectangle_to_polygon_normalized
                                  (Row.x0 row) (Row.y0 row)
                                  (Row.width row) (Row.height row)
                                  im_width im_height) ;;
                     file_write label_spath (label_line 0 polygon_coords)))).
Proof.
  rewrite parse_gameinfo_eq.
  destruct (config !! "Sequence") as [tbl|] eqn:Hsec; [|discriminate].
  destruct (tbl !! "num_tracklets") as [s|] eqn:Hnum; [|discriminate].
  destruct (PyStr.to_int s) as [n|] eqn:Hint; [|discriminate]. cbv zeta.
  destruct (role_strings tbl (py_range 1 (n + 1))) as [vs|] eqn:Hrs;
    [|discriminate].
  intros [= <- <-]. apply role_strings_length in Hrs.
  exists tbl, s, n. do 3 (split; [first [reflexivity | assumption]|]).
  assert (Hkeys : PyDict.keys (combine (py_range 1 (n + 1))
                                       (map role_category vs))
                  = py_range 1 (n + 1)).
  { apply keys_combine. now rewrite length_map. }
  split; [now apply keys_combine|]. split; [exact Hkeys|].
  split; [intros k; rewrite Hkeys, In_py_range; lia|]. split.
  { intros c Hc. unfold PyDict.values in Hc. apply in_map_iff in Hc.
    destruct Hc as [[k c'] [<- Hin]]. apply in_combine_r, in_map_iff in Hin.
    destruct Hin as [v [<- _]]. simpl.
    pose proof (role_category_range v). tauto. }
  intros k Hk. apply get_In in Hk.
  assert (Hcat : PyDict.get (combine (py_range 1 (n + 1))
                                     (map role_category vs)) k = Some 0).
  { now rewrite (get_combine_map role_category _ _ k "ball;1"
                   (py_range_NoDup _ _) Hk). }
  split; [exact Hcat|].
  destruct (ball_id_of_least _ vs k (py_range_ascending 1 (n + 1)) Hk)
    as [b [Hb [Hle Hinb]]].
  exists b. repeat split; try assumption.
  - now apply get_combine; [apply py_range_NoDup|].
  - intros Hne W H path row Htrack. unfold write_row, differs, PyDict.getitem.
    rewrite Htrack, Hcat. destruct (Z.eqb_spec k b) as [->|_]; [tauto|].
    reflexivity.
Qed.

Lemma parse_gameinfo_keys_and_ball_witness :
  exists tbl s num_tracklets,
    example_gameinfo !! "Sequence" = Some tbl
    /\ tbl !! "num_tracklets" = Some s
    /\ PyStr.to_int s = Ok num_tracklets
    /\ PyDict.keys example_registry = py_range 1 (num_tracklets + 1).
Proof.
  destruct (parse_gameinfo_keys_and_ball example_gameinfo example_registry
              [(1, 1); (2, 2); (3, 2); (4, 0)] eq_refl)
    as [tbl [s [n [H1 [H2 [H3 [H4 _]]]]]]].
  exists tbl, s, n. repeat split; assumption.
Defined.

(** ** Correct rounding of [int / int] *)

Section Rounding.
Local Open Scope Q_scope.

Lemma pow2_pos (e : Z) : 0 < 2 ^ e.
Proof. now apply Qpower_0_lt. Qed.

Lemma pow2_add (a b : Z) : 2 ^ (a + b) == 2 ^ a * 2 ^ b.
Proof. now apply Qpower_plus. Qed.

Lemma pow2_inject (e : Z) : (0 <= e)%Z -> inject_Z (2 ^ e) == 2 ^ e.
Proof. intros H. now rewrite Zpower_Qpower. Qed.

Lemma pow2_cancel (e : Z) : 2 ^ (- e) * 2 ^ e == 1.
Proof. rewrite <- pow2_add. now replace (- e + e)%Z with 0%Z by lia. Qed.

Lemma pow2_mono (a b : Z) : (a <= b)%Z -> 2 ^ a <= 2 ^ b.
Proof. intros H. now apply Qpower_le_compat_l. Qed.

Lemma pow2_lt_inv (a b : Z) : 2 ^ a < 2 ^ b -> (a < b)%Z.
Proof.
  intros H. destruct (Z_lt_ge_dec a b) as [Hlt|Hge]; [assumption|].
  apply Z.ge_le, pow2_mono in Hge. lra.
Qed.

Lemma scaled_le_spec (d e n : Z) :
  PyFloat.scaled_le d e n = true <-> inject_Z d * 2 ^ e <= inject_Z n.
Proof.
  unfold PyFloat.scaled_le. destruct (Z.leb_spec 0 e) as [He|He].
  - rewrite Z.leb_le, Zle_Qle, inject_Z_mult, pow2_inject by assumption.
    reflexivity.
  - rewrite Z.leb_le, Zle_Qle, inject_Z_mult, pow2_inject by lia.
    pose proof (pow2_pos e) as Hp. pose proof (pow2_cancel e) as Hc.
    set (P := 2 ^ e) in *. set (T := 2 ^ (- e)) in *.
    split; intros H.
    + assert (inject_Z d * P <= inject_Z n * T * P) by nra.
      assert (inject_Z n * T * P == inject_Z n)
        by (rewrite <- Qmult_assoc, Hc; ring).
      lra.
    + assert (inject_Z d * P * T <= inject_Z n * T).
      { apply Qmult_le_compat_r; [assumption|]. apply Qlt_le_weak, pow2_pos. }
      assert (inject_Z d * P * T == inject_Z d).
      { rewrite <- Qmult_assoc, (Qmult_comm P T), Hc. ring. }
      lra.
Qed.

Lemma log2_bounds (n : Z) :
  (0 < n)%Z ->
  2 ^ Z.log2 n <= inject_Z n /\ inject_Z n < 2 ^ (Z.log2 n + 1).
Proof.
  intros Hn. destruct (Z.log2_spec n Hn) as [Hlo Hhi].
  pose proof (Z.log2_nonneg n).
  rewrite <- !pow2_inject by lia. rewrite <- Zle_Qle, <- Zlt_Qlt.
  replace (Z.log2 n + 1)%Z with (Z.succ (Z.log2 n)) by lia. tauto.
Qed.

(** [ilog2 n d] is the binary exponent of [n / d]. *)
Lemma ilog2_spec (n d : Z) :
  (0 < n)%Z -> (0 < d)%Z ->
  inject_Z d * 2 ^ PyFloat.ilog2 n d <= inject_Z n
  /\ inject_Z n < inject_Z d * 2 ^ (PyFloat.ilog2 n d + 1).
Proof.
  intros Hn Hd. unfold PyFloat.ilog2.
  destruct (log2_bounds n Hn) as [Hn1 Hn2].
  destruct (log2_bounds d Hd) as [Hd1 Hd2].
  set (ln := Z.log2 n) in *. set (ld := Z.log2 d) in *.
  destruct (PyFloat.scaled_le d (ln - ld) n) eqn:Hs.
  - apply scaled_le_spec in Hs. split; [assumption|].
    replace (ln + 1)%Z with ((ln - ld + 1) + ld)%Z in Hn2 by lia.
    rewrite pow2_add in Hn2.
    pose proof (pow2_pos (ln - ld + 1)). pose proof (pow2_pos ld).
    set (A := 2 ^ (ln - ld + 1)) in *. set (B := 2 ^ ld) in *. nra.
  - assert (Hs' : ~ inject_Z d * 2 ^ (ln - ld) <= inject_Z n).
    { rewrite <- scaled_le_spec. congruence. }
    replace (ln - ld - 1 + 1)%Z with (ln - ld)%Z by lia.
    split; [|lra].
    replace ln with ((ln - ld - 1) + (ld + 1))%Z in Hn1 by lia.
    rewrite pow2_add in Hn1.
    pose proof (pow2_pos (ln - ld - 1)). pose proof (pow2_pos (ld + 1)).
    set (A := 2 ^ (ln - ld - 1)) in *. set (B := 2 ^ (ld + 1)) in *. nra.
Qed.

Lemma div_nearest_even_spec (N D : Z) :
  (0 <= N)%Z -> (0 < D)%Z ->
  let m := PyFloat.div_nearest_even N D in
  (0 <= m /\ - D <= 2 * (m * D - N) <= D)%Z.
Proof.
  intros HN HD. unfold PyFloat.div_nearest_even.
  pose proof (Z.div_mod N D ltac:(lia)) as Hdm.
  pose proof (Z.mod_pos_bound N D HD) as Hr.
  pose proof (Z.div_pos N D HN HD) as Hq.
  set (q := (N / D)%Z) in *. set (r := (N mod D)%Z) in *.
  destruct (Z.compare_spec (2 * r) D) as [Heq|Hlt|Hgt]; cbv zeta.
  - destruct (Z.even q); nia.
  - nia.
  - nia.
Qed.
(** The significand at exponent [ex] is within half a unit of
    [n / (d * 2^ex)]. *)
Lemma significand_spec (n d ex : Z) :
  (0 < n)%Z -> (0 < d)%Z ->
  let m := PyFloat.significand n d ex in
  (0 <= m)%Z
  /\ - (inject_Z d * 2 ^ ex)
     <= 2 * (inject_Z m * 2 ^ ex * inject_Z d - inject_Z n)
     <= inject_Z d * 2 ^ ex.
Proof.
  intros Hn Hd. unfold PyFloat.significand.
  destruct (Z.leb_spec 0 ex) as [He|He].
  - assert (HD : (0 < d * 2 ^ ex)%Z) by (apply Z.mul_pos_pos; lia).
    destruct (div_nearest_even_spec n (d * 2 ^ ex) ltac:(lia) HD)
      as [Hm [Hlo Hhi]].
    cbv zeta. split; [assumption|].
    set (m := PyFloat.div_nearest_even n (d * 2 ^ ex)) in *.
    rewrite Zle_Qle in Hlo, Hhi. push_inject Hlo. push_inject Hhi.
    rewrite !pow2_inject in Hlo, Hhi by assumption.
    set (P := 2 ^ ex) in *. change (inject_Z 2) with 2 in *. split; lra.
  - assert (HN : (0 <= n * 2 ^ (- ex))%Z) by (apply Z.mul_nonneg_nonneg; lia).
    destruct (div_nearest_even_spec (n * 2 ^ (- ex)) d HN Hd)
      as [Hm [Hlo Hhi]].
    cbv zeta. split; [assumption|].
    set (m := PyFloat.div_nearest_even (n * 2 ^ (- ex)) d) in *.
    rewrite Zle_Qle in Hlo, Hhi. push_inject Hlo. push_inject Hhi.
    rewrite !pow2_inject in Hlo, Hhi by lia.
    pose proof (pow2_pos ex) as Hp. pose proof (pow2_cancel ex) as Hc.
    set (P := 2 ^ ex) in *. set (T := 2 ^ (- ex)) in *.
    change (inject_Z 2) with 2 in *.
    assert (Hn' : inject_Z n * T * P == inject_Z n).
    { rewrite <- Qmult_assoc, Hc. ring. }
    assert (H1 : - inject_Z d * P
                 <= 2 * (inject_Z m * inject_Z d - inject_Z n * T) * P).
    { apply Qmult_le_compat_r; lra. }
    assert (H2 : 2 * (inject_Z m * inject_Z d - inject_Z n * T) * P
                 <= inject_Z d * P).
    { apply Qmult_le_compat_r; lra. }
    split; lra.
Qed.

(** Below [2^1023] the rounding does not overflow, and the result is
    within half a unit in the last place of [n / d]. *)
Lemma round_ratio_value (s : bool) (n d : Z) :
  (0 < n)%Z -> (0 < d)%Z -> inject_Z n < inject_Z d * 2 ^ 1023 ->
  exists (f : spec_float) (M : Q),
    PyFloat.round_ratio s n d = Some f
    /\ PyFloat.to_Q f == signed s M
    /\ let ex := Z.max (PyFloat.ilog2 n d - 52) (-1074) in
       - (inject_Z d * 2 ^ ex)
       <= 2 * (M * inject_Z d - inject_Z n)
       <= inject_Z d * 2 ^ ex.
Proof.
  intros Hn Hd Hmax.
  unfold PyFloat.round_ratio, PyFloat.prec, PyFloat.emax, PyFloat.emin.
  change (53 - 1)%Z with 52%Z. change (1024 - 53)%Z with 971%Z.
  destruct (ilog2_spec n d Hn Hd) as [Hlg1 Hlg2].
  set (lg := PyFloat.ilog2 n d) in *.
  assert (Hd' : inject_Z 0 < inject_Z d) by (now rewrite <- Zlt_Qlt).
  change (inject_Z 0) with 0 in Hd'.
  assert (Hlg : (lg <= 1022)%Z).
  { assert (H : 2 ^ lg < 2 ^ 1023).
    { pose proof (pow2_pos lg). pose proof (pow2_pos 1023).
      set (A := 2 ^ lg) in *. set (B := 2 ^ 1023) in *. nra. }
    apply pow2_lt_inv in H. lia. }
  set (ex := Z.max (lg - 52) (-1074)).
  destruct (significand_spec n d ex Hn Hd) as [Hm0 [Hlo Hhi]].
  set (m := PyFloat.significand n d ex) in *.
  assert (Hm53 : (m <= 2 ^ 53)%Z).
  { assert (H : inject_Z m < inject_Z (2 ^ 53 + 1)).
    { rewrite inject_Z_plus, pow2_inject by lia.
      assert (Hle : 2 ^ (lg + 1) <= 2 ^ (ex + 53)) by (apply pow2_mono; lia).
      rewrite (pow2_add ex 53) in Hle. clear Hmax Hlg1.
      pose proof (pow2_pos ex). pose proof (pow2_pos 53).
      set (P := 2 ^ ex) in *. set (K := 2 ^ 53) in *.
      set (L := 2 ^ (lg + 1)) in *. change (inject_Z 1) with 1.
      assert (HX : 0 < P * inject_Z d) by nra.
      assert (HL : inject_Z n < inject_Z d * (P * K)) by nra.
      apply Qnot_le_lt. intros Hge.
      assert (H1 : (K + 1) * (P * inject_Z d) <= inject_Z m * (P * inject_Z d)).
      { apply Qmult_le_compat_r; lra. }
      nra. }
    rewrite <- Zlt_Qlt in H. lia. }
  destruct (Z.eqb_spec m (2 ^ 53)) as [Hm|Hm].
  - change (2 ^ 52)%Z with (Zpos (2 ^ 52)).
    replace (ex + 1 <=? 971)%Z with true by (symmetry; apply Z.leb_le; lia).
    exists (S754_finite s (2 ^ 52) (ex + 1)),
           (inject_Z (Zpos (2 ^ 52)) * 2 ^ (ex + 1)).
    split; [reflexivity|]. split; [reflexivity|]. cbv zeta.
    rewrite Hm in Hlo, Hhi. rewrite pow2_add.
    change (2 ^ 53)%Z with (2 * Zpos (2 ^ 52))%Z in Hlo, Hhi.
    rewrite inject_Z_mult in Hlo, Hhi. change (inject_Z 2) with 2 in *.
    change (2 ^ 1) with 2.
    set (P := 2 ^ ex) in *. set (K := inject_Z (Zpos (2 ^ 52))) in *.
    split; lra.
  - destruct m as [|p|p] eqn:Em.
    + exists (S754_zero s), 0. split; [reflexivity|].
      split; [now destruct s|]. cbv zeta.
      change (inject_Z 0) with 0 in *. set (P := 2 ^ ex) in *. split; lra.
    + replace (ex <=? 971)%Z with true by (symmetry; apply Z.leb_le; lia).
      exists (S754_finite s p ex), (inject_Z (Zpos p) * 2 ^ ex).
      split; [reflexivity|]. split; [reflexivity|]. cbv zeta.
      split; assumption.
    + lia.
Qed.

Lemma truediv_zero_divisor (a : Z) :
  PyFloat.truediv a 0 = Raise ZeroDivisionError.
Proof. reflexivity. Qed.


Lemma inject_Z_abs_lt (a : Z) (k : Z) :
  (0 <= k)%Z -> (Z.abs a < 2 ^ k)%Z -> inject_Z (Z.abs a) < 2 ^ k.
Proof.
  intros Hk H. rewrite <- pow2_inject by assumption. now rewrite <- Zlt_Qlt.
Qed.

(** [a / b] for a numerator below [2^1023] in magnitude: the quotient
    exists, and when the divisor is at most [2^1022] in magnitude it is
    within the relative error [2^-53] of the exact quotient. *)
Lemma truediv_value (a b : Z) :
  b <> 0%Z -> (Z.abs a < 2 ^ 1023)%Z ->
  exists f : spec_float,
    PyFloat.truediv a b = Ok f
    /\ ((Z.abs b <= 2 ^ 1022)%Z ->
        Qabs (PyFloat.to_Q f * inject_Z b - inject_Z a)
        <= 2 ^ (-53) * Qabs (inject_Z a)).
Proof.
  intros Hb Ha. unfold PyFloat.truediv.
  destruct (Z.eqb_spec b 0) as [|_]; [contradiction|].
  pose proof (pow2_pos (-53)) as HK. set (K := 2 ^ (-53)) in *.
  destruct (Z.eqb_spec a 0) as [->|Ha0].
  { eexists. split; [reflexivity|]. intros _. simpl PyFloat.to_Q.
    change (inject_Z 0) with 0. rewrite Qabs_Qle_condition.
    change (Qabs 0) with 0. split; lra. }
  assert (Hn : (0 < Z.abs a)%Z) by lia.
  assert (Hd : (0 < Z.abs b)%Z) by lia.
  assert (Hn1 : 1 <= inject_Z (Z.abs a)).
  { change 1 with (inject_Z 1). rewrite <- Zle_Qle. lia. }
  assert (Hd1 : 1 <= inject_Z (Z.abs b)).
  { change 1 with (inject_Z 1). rewrite <- Zle_Qle. lia. }
  assert (Hmax : inject_Z (Z.abs a) < inject_Z (Z.abs b) * 2 ^ 1023).
  { pose proof (inject_Z_abs_lt a 1023 ltac:(lia) Ha) as H.
    pose proof (pow2_pos 1023). set (B := 2 ^ 1023) in *. nra. }
  set (s := xorb (a <? 0)%Z (b <? 0)%Z).
  destruct (round_ratio_value s _ _ Hn Hd Hmax) as [f [M [Hf [HM Hbnd]]]].
  rewrite Hf. exists f. split; [reflexivity|]. intros Hb1022.
  cbv zeta in Hbnd. clear Hf Hmax.
  destruct (ilog2_spec _ _ Hn Hd) as [Hlg1 Hlg2].
  set (lg := PyFloat.ilog2 (Z.abs a) (Z.abs b)) in *.
  assert (Hsmall : inject_Z (Z.abs b) * 2 ^ (-1022) <= 1).
  { assert (H : inject_Z (Z.abs b) <= 2 ^ 1022).
    { rewrite <- pow2_inject by lia. now rewrite <- Zle_Qle. }
    pose proof (pow2_cancel 1022) as Hc. pose proof (pow2_pos (-1022)).
    set (A := 2 ^ 1022) in *. set (B := 2 ^ (- (1022))) in *.
    change (2 ^ (-1022)) with B. nra. }
  assert (Hlg : (-1022 <= lg)%Z).
  { assert (H : 2 ^ (-1022) < 2 ^ (lg + 1)).
    { pose proof (pow2_pos (-1022)). pose proof (pow2_pos (lg + 1)).
      set (A := 2 ^ (-1022)) in *. set (B := 2 ^ (lg + 1)) in *. nra. }
    apply pow2_lt_inv in H. lia. }
  replace (Z.max (lg - 52) (-1074)) with (lg + -52)%Z in Hbnd by lia.
  rewrite pow2_add in Hbnd.
  assert (H52 : 2 ^ (-52) == 2 * K) by reflexivity.
  pose proof (pow2_pos lg) as HL.
  set (L := 2 ^ lg) in *. set (E := 2 ^ (-52)) in *.
  clear Hsmall Hlg2 Hn Hd Ha Hlg.
  assert (Herr : - (K * inject_Z (Z.abs a))
                 <= M * inject_Z (Z.abs b) - inject_Z (Z.abs a)
                 <= K * inject_Z (Z.abs a)).
  { destruct Hbnd as [Hlo Hhi].
    assert (inject_Z (Z.abs b) * (L * E)
            == 2 * K * (inject_Z (Z.abs b) * L)) by (rewrite H52; ring).
    assert (K * (inject_Z (Z.abs b) * L) <= K * inject_Z (Z.abs a)).
    { apply Qmult_le_l; assumption. }
    split; lra. }
  clear Hbnd Hlg1 H52 HL.
  rewrite Qabs_Qle_condition, HM. unfold s, signed.
  destruct (Z.ltb_spec a 0) as [Hsa|Hsa], (Z.ltb_spec b 0) as [Hsb|Hsb];
    cbn [xorb];
    rewrite ?(Z.abs_neq a), ?(Z.abs_eq a), ?(Z.abs_neq b), ?(Z.abs_eq b)
      in Herr by lia;
    rewrite ?inject_Z_opp in Herr.
  - rewrite Qabs_neg by (change 0 with (inject_Z 0); rewrite <- Zle_Qle; lia).
    split; lra.
  - rewrite Qabs_neg by (change 0 with (inject_Z 0); rewrite <- Zle_Qle; lia).
    split; lra.
  - rewrite Qabs_pos by (change 0 with (inject_Z 0); rewrite <- Zle_Qle; lia).
    split; lra.
  - rewrite Qabs_pos by (change 0 with (inject_Z 0); rewrite <- Zle_Qle; lia).
    split; lra.
Qed.

End Rounding.

(** ** Conformance of the float model *)

(** On every pair of integers between -40 and 40 the quotient is the one
    that the standard library's specification of IEEE 754 division gives
    for the two operands converted to binary64, and it is in canonical
    form. *)
Lemma truediv_agrees_with_ieee_on_grid :
  forallb (fun a => forallb (agrees_with_ieee a) (py_range (-40) 41))
          (py_range (-40) 41)
  = true.
Proof. vm_compute. reflexivity. Qed.

(** Quotients whose [repr] is well known: shortest digits that read back,
    positional notation up to 16 integer digits and down to 1e-4, exponent
    notation beyond, signed zero, the least subnormal. *)
Lemma repr_known_values :
  map repr_of_quotient
      [(1, 3); (2, 3); (-1, 3); (1, 49); (0, -5); (0, 5);
       (10 ^ 16, 1); (10 ^ 15, 1); (1, 10 ^ 5); (1, 10 ^ 4);
       (10 ^ 23, 1); (123456789012345678, 1); (1, 2 ^ 1074)]
  = ["0.3333333333333333"; "0.6666666666666666"; "-0.3333333333333333";
     "0.02040816326530612"; "-0.0"; "0.0";
     "1e+16"; "1000000000000000.0"; "1e-05"; "0.0001";
     "1e+23"; "1.2345678901234568e+17"; "5e-324"].
Proof. vm_compute. reflexivity. Qed.

(** Rounding at the ends of the range: ties go to the even significand,
    the largest finite float is reached, the next integer overflows. *)
Lemma truediv_range_ends :
  PyFloat.truediv 1 (2 ^ 1075) = Ok (S754_zero false)
  /\ PyFloat.truediv 3 (2 ^ 1075) = Ok (S754_finite false 2 (-1074))
  /\ PyFloat.truediv (2 ^ 1024 - 2 ^ 970 - 1) 1
     = Ok (S754_finite false (2 ^ 53 - 1) 971)
  /\ PyFloat.truediv (2 ^ 1024 - 2 ^ 970) 1 = Raise OverflowError.
Proof. repeat split; vm_compute; reflexivity. Qed.

(** ** Geometry *)

Lemma rectangle_to_polygon_normalized_ok
    (x0 y0 width height img_width img_height : Z)
    (cx0 cy0 cx1 cy1 : spec_float) :
  PyFloat.truediv x0 img_width = Ok cx0 ->
  PyFloat.truediv y0 img_height = Ok cy0 ->
  PyFloat.truediv (x0 + width) img_width = Ok cx1 ->
  PyFloat.truediv (y0 + height) img_height = Ok cy1 ->
  rectangle_to_polygon_normalized x0 y0 width height img_width img_height
  = Ok [cx0; cy0; cx1; cy0; cx1; cy1; cx0; cy1].
Proof.
  intros Hcx0 Hcy0 Hcx1 Hcy1. unfold rectangle_to_polygon_normalized.
  now rewrite Hcx0, Hcy0, Hcx1, Hcy1.
Qed.

(** C2, counterexample.  A corner coordinate beyond the range of binary64
    makes the division raise [OverflowError]: nothing is returned although
    both image dimensions are non-zero. *)
Lemma rectangle_overflow :
  rectangle_to_polygon_normalized (2 ^ 1024) 0 0 0 1 1 = Raise OverflowError.
Proof. vm_compute. reflexivity. Qed.

(** C2, as the code has it.  For non-zero image dimensions and corner
    coordinates below 2^1023 in magnitude, the result is the list of the
    corners (x0,y0), (x0+width,y0), (x0+width,y0+height), (x0,y0+height),
    every x divided by [img_width] and every y by [img_height] with Python's
    [/].  The rectangle (10, 20, 100, 50) in a 200 x 100 image gives the
    floats written 0.05, 0.2, 0.55, 0.2, 0.55, 0.7, 0.05, 0.7. *)
Theorem rectangle_corners_divided :
  (forall x0 y0 width height img_width img_height : Z,
      img_width <> 0 -> img_height <> 0 ->
      Z.abs x0 < 2 ^ 1023 -> Z.abs (x0 + width) < 2 ^ 1023 ->
      Z.abs y0 < 2 ^ 1023 -> Z.abs (y0 + height) < 2 ^ 1023 ->
      exists cx0 cy0 cx1 cy1 : spec_float,
        PyFloat.truediv x0 img_width = Ok cx0
        /\ PyFloat.truediv y0 img_height = Ok cy0
        /\ PyFloat.truediv (x0 + width) img_width = Ok cx1
        /\ PyFloat.truediv (y0 + height) img_height = Ok cy1
        /\ rectangle_to_polygon_normalized
             x0 y0 width height img_width img_height
           = Ok [cx0; cy0; cx1; cy0; cx1; cy1; cx0; cy1])
  /\ (exists l : list spec_float,
        rectangle_to_polygon_normalized 10 20 100 50 200 100 = Ok l
        /\ map Some l
           = [PyFloat.decimal 5 (-2); PyFloat.decimal 2 (-1);
              PyFloat.decimal 55 (-2); PyFloat.decimal 2 (-1);
              PyFloat.decimal 55 (-2); PyFloat.decimal 7 (-1);
              PyFloat.decimal 5 (-2); PyFloat.decimal 7 (-1)]
        /\ map PyFloat.repr l
           = ["0.05"; "0.2"; "0.55"; "0.2"; "0.55"; "0.7"; "0.05"; "0.7"]).
Proof.
  split.
  - intros x0 y0 width height img_width img_height HW HH Hx0 Hx1 Hy0 Hy1.
    destruct (truediv_value x0 img_width HW Hx0) as [cx0 [Hcx0 _]].
    destruct (truediv_value y0 img_height HH Hy0) as [cy0 [Hcy0 _]].
    destruct (truediv_value (x0 + width) img_width HW Hx1) as [cx1 [Hcx1 _]].
    destruct (truediv_value (y0 + height) img_height HH Hy1) as [cy1 [Hcy1 _]].
    exists cx0, cy0, cx1, cy1. repeat (split; [assumption|]).
    now apply rectangle_to_polygon_normalized_ok.
  - eexists. split; [vm_compute; reflexivity|].
    split; vm_compute; reflexivity.
Qed.

Lemma rectangle_corners_divided_witness :
  exists cx0 cy0 cx1 cy1 : spec_float,
    rectangle_to_polygon_normalized 0 0 10 10 100 100
    = Ok [cx0; cy0; cx1; cy0; cx1; cy1; cx0; cy1].
Proof.
  destruct (proj1 rectangle_corners_divided 0 0 10 10 100 100)
    as [cx0 [cy0 [cx1 [cy1 [_ [_ [_ [_ H]]]]]]]];
    try (intros H; discriminate H); try reflexivity.
  now exists cx0, cy0, cx1, cy1.
Defined.




(** ** Denormalising the polygon *)




(** ** The label writer *)

Lemma io_for_cons {B} (x : B) (xs : list B) (body : B -> io unit) (st : store) :
  io_for (x :: xs) body st =
  match body x st with
  | (st', Ok _) => io_for xs body st'
  | (st', Raise e) => (st', Raise e)
  end.
Proof. reflexivity. Qed.

Section WriterFacts.
Variable ball_id : option Z.
Variable id_map : PyDict.t Z.
Variables im_width im_height : Z.
Variable label_spath : string.

#[local] Abbreviation body :=
  (write_row ball_id id_map im_width im_height label_spath).

(** A row of the ball track writes nothing. *)
Lemma write_row_ball (row : Row.t) (st : store) :
  differs (Row.track_id row) ball_id = false -> body row st = (st, Ok tt).
Proof. intros H. unfold write_row. now rewrite H. Qed.

(** A row of a track that is not in [id_map] raises [KeyError] and writes
    nothing. *)
Lemma write_row_unknown (row : Row.t) (st : store) :
  differs (Row.track_id row) ball_id = true ->
  PyDict.get id_map (Row.track_id row) = None ->
  body row st = (st, Raise KeyError).
Proof.
  intros Hd Hg. unfold write_row, PyDict.getitem. now rewrite Hd, Hg.
Qed.

(** An exception in the body of the loop ends the loop. *)
Lemma io_for_raises (rows : list Row.t) (row : Row.t) (e : exn) :
  In row rows ->
  (forall st, snd (body row st) = Raise e) ->
  forall st, exists st' e', io_for rows body st = (st', Raise e').
Proof.
  intros Hin Hrow. induction rows as [|r rows IH]; [contradiction|].
  intros st. rewrite io_for_cons.
  destruct Hin as [->|Hin].
  - specialize (Hrow st). destruct (body row st) as [st' [[]|e']];
      simpl in Hrow; [discriminate|]. now exists st', e'.
  - destruct (body r st) as [st' [[]|e']].
    + now apply IH.
    + now exists st', e'.
Qed.

(** The rows of the ball track contribute nothing to the file. *)
Lemma io_for_skips_ball (rows : list Row.t) (st : store) :
  io_for rows body st =
  io_for (List.filter (fun r => differs (Row.track_id r) ball_id) rows)
         body st.
Proof.
  revert st. induction rows as [|r rows IH]; intros st; [reflexivity|].
  cbn [List.filter]. destruct (differs (Row.track_id r) ball_id) eqn:Hd.
  - rewrite !io_for_cons. destruct (body r st) as [st' [[]|e]];
      [apply IH | reflexivity].
  - rewrite io_for_cons, write_row_ball by assumption. apply IH.
Qed.
End WriterFacts.

Lemma string_app_assoc (a b c : string) :
  (a +:+ b) +:+ c = a +:+ (b +:+ c).
Proof.
  induction a as [|x a IH]; [reflexivity|].
  change (String x ((a +:+ b) +:+ c) = String x (a +:+ (b +:+ c))).
  now f_equal.
Qed.

(** C5.  A label line is the category code and the 8 coordinates, separated
    by single spaces and ended by a newline.  For the row
    (frame 5, track 2, x0 0, y0 0, width 10, height 10, flag 1) in a
    100 x 100 image, with track 2 of category 2 and not the ball, the line
    written is "2 0.0 0.0 0.1 0.0 0.1 0.1 0.0 0.1" and a newline; run on the
    example registry, where track 2 is a player, [process_data] leaves
    exactly this line in the label file of frame 5. *)
Theorem label_line_player_example :
  (forall (idt : Z) (c1 c2 c3 c4 c5 c6 c7 c8 : spec_float),
      label_line idt [c1; c2; c3; c4; c5; c6; c7; c8]
      = PyStr.of_int idt +:+ " "
        +:+ PyFloat.repr c1 +:+ " " +:+ PyFloat.repr c2 +:+ " "
        +:+ PyFloat.repr c3 +:+ " " +:+ PyFloat.repr c4 +:+ " "
        +:+ PyFloat.repr c5 +:+ " " +:+ PyFloat.repr c6 +:+ " "
        +:+ PyFloat.repr c7 +:+ " " +:+ PyFloat.repr c8 +:+ PyStr.newline)
  /\ (forall (ball_id : option Z) (id_map : PyDict.t Z)
             (label_spath : string) (st : store),
         differs 2 ball_id = true ->
         PyDict.get id_map 2 = Some 2 ->
         write_row ball_id id_map 100 100 label_spath example_row st
         = file_write label_spath example_line st)
  /\ process_data example_gameinfo example_seqinfo [example_row]
                  ["img1/000005.jpg"] ∅
     = ({[ "000005.txt" := example_line ]}, Ok tt).
Proof.
  split; [|split].
  - intros. unfold label_line. cbn [map PyStr.join].
    now rewrite !string_app_assoc.
  - intros ball_id id_map label_spath st Hd Hg.
    unfold write_row, PyDict.getitem. cbn [Row.track_id example_row].
    rewrite Hd, Hg. unfold io_bind, io_lift.
    replace (rectangle_to_polygon_normalized _ _ _ _ 100 100)
      with (Ok [S754_zero false; S754_zero false;
                S754_finite false 7205759403792794 (-56); S754_zero false;
                S754_finite false 7205759403792794 (-56);
                S754_finite false 7205759403792794 (-56);
                S754_zero false;
                S754_finite false 7205759403792794 (-56)])
      by (vm_compute; reflexivity).
    replace (label_line 2 _) with example_line by (vm_compute; reflexivity).
    reflexivity.
  - vm_compute. reflexivity.
Qed.

Lemma label_line_player_example_witness :
  write_row (Some 4) [(1, 1); (2, 2); (3, 2); (4, 0)] 100 100
            "000005.txt" example_row {[ "000005.txt" := EmptyString ]}
  = ({[ "000005.txt" := example_line ]}, Ok tt).
Proof.
  rewrite (proj1 (proj2 label_line_player_example)
             (Some 4) [(1, 1); (2, 2); (3, 2); (4, 0)] "000005.txt"
             {[ "000005.txt" := EmptyString ]} eq_refl eq_refl).
  vm_compute. reflexivity.
Defined.

(** ** Frames without rows *)





(** ** Ball exclusion *)

(** C4.  The ball ID, when there is one, is the key of a tracklet whose
    role string is exactly "ball;1": a longer string that merely contains
    it does not count.  A row of that track writes nothing, and the file of
    a frame is what its other rows write.  When no role string equals
    "ball;1" there is no ball ID and no row is skipped. *)
Theorem ball_rows_excluded (tracklets : PyDict.t string) :
  (forall b, ball_id_of tracklets = Some b ->
     In (b, "ball;1") (PyDict.items tracklets)
     /\ forall (id_map : PyDict.t Z) (im_width im_height : Z)
               (label_spath : string) (st : store),
        (forall row, Row.track_id row = b ->
           write_row (Some b) id_map im_width im_height label_spath row st
           = (st, Ok tt))
        /\ (forall rows,
              io_for rows
                (write_row (Some b) id_map im_width im_height label_spath) st
              = io_for (List.filter (fun r => negb (Row.track_id r =? b)) rows)
                  (write_row (Some b) id_map im_width im_height label_spath)
                  st))
  /\ ((forall k v, In (k, v) (PyDict.items tracklets) -> v <> "ball;1") ->
      ball_id_of tracklets = None
      /\ forall row, differs (Row.track_id row) (ball_id_of tracklets) = true)
  /\ ball_id_of [(1, "ball;10"); (2, "the ball;1"); (3, "Ball;1")] = None.
Proof.
  split; [|split; [|reflexivity]].
  - intros b Hb. split; [now apply ball_id_of_Some|].
    intros id_map W H path st. split.
    + intros row Hrow. apply write_row_ball. unfold differs.
      now rewrite Hrow, Z.eqb_refl.
    + intros rows. apply (io_for_skips_ball (Some b)).
  - intros Hnone. unfold PyDict.items in Hnone.
    apply ball_id_of_None in Hnone. rewrite Hnone. split; reflexivity.
Qed.

Lemma ball_rows_excluded_witness :
  In (4, "ball;1") example_registry
  /\ write_row (Some 4) [(1, 1); (2, 2); (3, 2); (4, 0)] 100 100 "000005.txt"
               (Row.make 5 4 1 1 1 1 1) {[ "000005.txt" := EmptyString ]}
     = ({[ "000005.txt" := EmptyString ]}, Ok tt).
Proof.
  destruct (proj1 (ball_rows_excluded example_registry) 4 eq_refl)
    as [Hin Hskip].
  split; [exact Hin|].
  now apply (proj1 (Hskip [(1, 1); (2, 2); (3, 2); (4, 0)] 100 100
                          "000005.txt" {[ "000005.txt" := EmptyString ]})).
Defined.

(** ** Unknown tracks *)

(** C9, counterexample.  Track 7 is not in the category map: the writer
    stops with Python's [KeyError]; an [UnknownTrackError] is not what it
    raises. *)
Lemma unknown_track_is_a_KeyError :
  write_row None [(1, 1)] 100 100 "000001.txt"
            (Row.make 1 7 0 0 10 10 1) {[ "000001.txt" := EmptyString ]}
  = ({[ "000001.txt" := EmptyString ]}, Raise KeyError)
  /\ snd (write_row None [(1, 1)] 100 100 "000001.txt"
                    (Row.make 1 7 0 0 10 10 1)
                    {[ "000001.txt" := EmptyString ]})
     <> Raise UnknownTrackError.
Proof. split; [reflexivity | discriminate]. Qed.

(** C9, as the code has it.  A row that is not a ball row and whose track
    is absent from the category map makes the writer fail with [KeyError],
    the lookup failure of [id_map[...]]: nothing is written for the row, no
    category is substituted, and the loop over the rows of its frame ends
    in an exception. *)
Theorem unknown_track_raises_KeyError
    (ball_id : option Z) (id_map : PyDict.t Z) (im_width im_height : Z)
    (label_spath : string) (row : Row.t) :
  differs (Row.track_id row) ball_id = true ->
  PyDict.get id_map (Row.track_id row) = None ->
  (forall st,
      write_row ball_id id_map im_width im_height label_spath row st
      = (st, Raise KeyError))
  /\ (forall rows st, In row rows ->
        exists st' e,
          io_for rows
            (write_row ball_id id_map im_width im_height label_spath) st
          = (st', Raise e)).
Proof.
  intros Hd Hg. split.
  - intros st. now apply write_row_unknown.
  - intros rows st Hin.
    apply (io_for_raises ball_id id_map _ _ _ rows row KeyError Hin).
    intros st0. now rewrite write_row_unknown.
Qed.

Lemma unknown_track_raises_KeyError_witness :
  write_row (Some 4) [(1, 1); (2, 2); (3, 2); (4, 0)] 100 100 "000005.txt"
            (Row.make 5 9 0 0 10 10 1) ∅
  = (∅, Raise KeyError).
Proof.
  apply (proj1 (unknown_track_raises_KeyError
                  (Some 4) [(1, 1); (2, 2); (3, 2); (4, 0)] 100 100
                  "000005.txt" (Row.make 5 9 0 0 10 10 1) eq_refl eq_refl)).
Defined.

(** * Further properties of the code *)

(** ** What a frame's label file holds *)

Lemma string_app_nil_r (a : string) : a +:+ EmptyString = a.
Proof.
  induction a as [|x a IH]; [reflexivity|].
  change (String x (a +:+ EmptyString) = String x a). now f_equal.
Qed.

Section FrameFile.
Variable ball_id : option Z.
Variable id_map : PyDict.t Z.
Variables im_width im_height : Z.
Variable label_spath : string.

#[local] Abbreviation row_body :=
  (write_row ball_id id_map im_width im_height label_spath).

#[local] Abbreviation kept :=
  (List.filter (fun r => differs (Row.track_id r) ball_id)).

Lemma write_row_line (row : Row.t) (line : string) (st : store) :
  differs (Row.track_id row) ball_id = true ->
  writes_line id_map im_width im_height row line ->
  row_body row st = file_write label_spath line st.
Proof.
  intros Hd [idt [coords [Hg [Hp ->]]]].
  unfold write_row, PyDict.getitem, io_bind, io_lift. now rewrite Hd, Hg, Hp.
Qed.

(** Rows that all write their line append these lines, in order, to the
    open file. *)
Lemma io_for_appends_lines (rows : list Row.t) (lines : list string) :
  Forall2 (writes_line id_map im_width im_height) (kept rows) lines ->
  forall (st : store) (content : string),
    st !! label_spath = Some content ->
    io_for rows row_body st
    = (<[label_spath := content +:+ file_text lines]> st, Ok tt).
Proof.
  revert lines.
  induction rows as [|r rows IH]; intros lines HF st content Hc.
  - inversion HF as [E|]; subst lines.
    cbn [io_for io_ret file_text fold_right].
    now rewrite string_app_nil_r, insert_id.
  - rewrite io_for_cons. cbn [List.filter] in HF.
    destruct (differs (Row.track_id r) ball_id) eqn:Hd.
    + inversion HF as [|? line ? lines' Hline HF' E1 E2]; subst lines.
      rewrite (write_row_line r line st Hd Hline). unfold file_write.
      rewrite Hc. cbn [default].
      rewrite (IH lines' HF' _ (content +:+ line))
        by apply lookup_insert_eq.
      rewrite insert_insert_eq. cbn [file_text fold_right].
      now rewrite string_app_assoc.
    + rewrite write_row_ball by assumption. now apply IH.
Qed.

(** The first row that raises ends the loop; the file keeps the lines of
    the rows before it. *)
Lemma io_for_stops_at (pre post : list Row.t) (bad : Row.t)
    (lines : list string) (e : exn) :
  Forall2 (writes_line id_map im_width im_height) (kept pre) lines ->
  (forall st, row_body bad st = (st, Raise e)) ->
  forall (st : store) (content : string),
    st !! label_spath = Some content ->
    io_for (pre ++ bad :: post) row_body st
    = (<[label_spath := content +:+ file_text lines]> st, Raise e).
Proof.
  revert lines.
  induction pre as [|r pre IH]; intros lines HF Hbad st content Hc.
  - inversion HF as [E|]; subst lines. cbn [app].
    rewrite io_for_cons, Hbad.
    cbn [file_text fold_right]. now rewrite string_app_nil_r, insert_id.
  - cbn [app]. rewrite io_for_cons. cbn [List.filter] in HF.
    destruct (differs (Row.track_id r) ball_id) eqn:Hd.
    + inversion HF as [|? line ? lines' Hline HF' E1 E2]; subst lines.
      rewrite (write_row_line r line st Hd Hline). unfold file_write.
      rewrite Hc. cbn [default].
      rewrite (IH lines' HF' Hbad _ (content +:+ line))
        by apply lookup_insert_eq.
      rewrite insert_insert_eq. cbn [file_text fold_right].
      now rewrite string_app_assoc.
    + rewrite write_row_ball by assumption. now apply IH.
Qed.

(** The loop over the rows changes no file but the open one. *)
Lemma io_for_other_files (rows : list Row.t) (p : string) :
  p <> label_spath ->
  forall st : store, fst (io_for rows row_body st) !! p = st !! p.
Proof.
  intros Hp. induction rows as [|r rows IH]; intros st; [reflexivity|].
  rewrite io_for_cons.
  assert (Hrow : fst (row_body r st) !! p = st !! p).
  { unfold write_row.
    destruct (differs (Row.track_id r) ball_id); [|reflexivity].
    unfold io_bind, io_lift.
    destruct (PyDict.getitem id_map (Row.track_id r)); [|reflexivity].
    destruct (rectangle_to_polygon_normalized _ _ _ _ _ _); [|reflexivity].
    unfold file_write. cbn [fst]. now apply lookup_insert_ne. }
  destruct (row_body r st) as [st' [[]|e]]; cbn [fst] in *.
  - now rewrite IH.
  - assumption.
Qed.
End FrameFile.

Lemma get_group_ok (df rows : list Row.t) (frame_id : Z) :
  get_group df frame_id = Ok rows ->
  rows = List.filter (fun r => Row.frame_id r =? frame_id) df /\ rows <> [].
Proof.
  unfold get_group.
  destruct (List.filter (fun r => Row.frame_id r =? frame_id) df) as [|r l];
    [discriminate|].
  intros [= <-]. split; [reflexivity | discriminate].
Qed.

Lemma process_image_eq (ball_id : option Z) (id_map : PyDict.t Z)
    (im_width im_height : Z) (df rows : list Row.t)
    (ext img_path fname : string) (frame_id : Z) (st : store) :
  PyStr.split_first ext (PyStr.basename img_path) = Ok fname ->
  PyStr.to_int fname = Ok frame_id ->
  get_group df frame_id = Ok rows ->
  process_image ball_id id_map im_width im_height df ext img_path st
  = io_for rows
      (write_row ball_id id_map im_width im_height (fname +:+ ".txt"))
      (<[fname +:+ ".txt" := EmptyString]> st).
Proof.
  intros Hname Hint Hg. unfold process_image, io_bind, io_lift, open_w.
  now rewrite Hname, Hint, Hg.
Qed.

(** X1.  When the frame of an image has rows and each of its rows outside
    the ball track has a known track and a polygon in range, the label file
    of the image holds exactly the lines of these rows, one per row and in
    table order, whatever it held before; a frame with ball rows only gets
    an empty file. *)
Theorem process_image_writes_lines
    (ball_id : option Z) (id_map : PyDict.t Z) (im_width im_height : Z)
    (df rows : list Row.t) (ext img_path fname : string) (frame_id : Z)
    (lines : list string) (st : store) :
  PyStr.split_first ext (PyStr.basename img_path) = Ok fname ->
  PyStr.to_int fname = Ok frame_id ->
  get_group df frame_id = Ok rows ->
  Forall2 (writes_line id_map im_width im_height)
          (List.filter (fun r => differs (Row.track_id r) ball_id) rows)
          lines ->
  process_image ball_id id_map im_width im_height df ext img_path st
  = (<[fname +:+ ".txt" := file_text lines]> st, Ok tt)
  /\ length lines
     = length (List.filter (fun r => differs (Row.track_id r) ball_id) rows)
  /\ (List.filter (fun r => differs (Row.track_id r) ball_id) rows = [] ->
      file_text lines = EmptyString).
Proof.
  intros Hname Hint Hg HF. split; [|split].
  - rewrite (process_image_eq _ _ _ _ _ rows _ _ fname frame_id)
      by assumption.
    rewrite (io_for_appends_lines _ _ _ _ _ rows lines HF _ EmptyString)
      by apply lookup_insert_eq.
    now rewrite insert_insert_eq.
  - symmetry. eapply Forall2_length, HF.
  - intros Hnil. rewrite Hnil in HF. now inversion HF.
Qed.

Lemma process_image_writes_lines_witness :
  process_image (Some 4) [(1, 1); (2, 2); (3, 2); (4, 0)] 100 100
                [example_row; Row.make 5 4 1 1 1 1 1; Row.make 6 4 1 1 1 1 1]
                ".jpg" "img1/000005.jpg" {[ "000005.txt" := "stale" ]}
  = ({[ "000005.txt" := example_line ]}, Ok tt).
Proof.
  destruct (process_image_writes_lines
              (Some 4) [(1, 1); (2, 2); (3, 2); (4, 0)] 100 100
              [example_row; Row.make 5 4 1 1 1 1 1; Row.make 6 4 1 1 1 1 1]
              [example_row; Row.make 5 4 1 1 1 1 1]
              ".jpg" "img1/000005.jpg" "000005" 5 [example_line]
              {[ "000005.txt" := "stale" ]} eq_refl eq_refl eq_refl)
    as [H _].
  - constructor; [|constructor].
    exists 2, example_polygon. split; [reflexivity|].
    split; vm_compute; reflexivity.
  - rewrite H. vm_compute. reflexivity.
Defined.

(** X2.  When a row of the frame raises, because its track is not in the
    category map or because its polygon cannot be computed, the label file
    is left behind with the lines of the rows before it and the exception
    propagates; the rows after it are not written. *)
Theorem process_image_partial_file
    (ball_id : option Z) (id_map : PyDict.t Z) (im_width im_height : Z)
    (df pre post : list Row.t) (bad : Row.t)
    (ext img_path fname : string) (frame_id : Z)
    (lines : list string) (e : exn) (st : store) :
  PyStr.split_first ext (PyStr.basename img_path) = Ok fname ->
  PyStr.to_int fname = Ok frame_id ->
  get_group df frame_id = Ok (pre ++ bad :: post) ->
  Forall2 (writes_line id_map im_width im_height)
          (List.filter (fun r => differs (Row.track_id r) ball_id) pre)
          lines ->
  differs (Row.track_id bad) ball_id = true ->
  (PyDict.get id_map (Row.track_id bad) = None /\ e = KeyError)
  \/ (PyDict.get id_map (Row.track_id bad) <> None
      /\ rectangle_to_polygon_normalized
           (Row.x0 bad) (Row.y0 bad) (Row.width bad) (Row.height bad)
           im_width im_height = Raise e) ->
  process_image ball_id id_map im_width im_height df ext img_path st
  = (<[fname +:+ ".txt" := file_text lines]> st, Raise e).
Proof.
  intros Hname Hint Hg HF Hd Hbad.
  rewrite (process_image_eq _ _ _ _ _ (pre ++ bad :: post) _ _ fname frame_id)
    by assumption.
  rewrite (io_for_stops_at _ _ _ _ _ pre post bad lines e HF)
    with (content := EmptyString).
  - now rewrite insert_insert_eq.
  - intros st0. unfold write_row, PyDict.getitem, io_bind, io_lift.
    rewrite Hd. destruct Hbad as [[Hnone ->]|[Hsome Hr]].
    + now rewrite Hnone.
    + destruct (PyDict.get id_map (Row.track_id bad)); [|contradiction].
      now rewrite Hr.
  - apply lookup_insert_eq.
Qed.

Lemma process_image_partial_file_witness :
  process_image (Some 4) [(1, 1); (2, 2); (3, 2); (4, 0)] 100 100
                [example_row; Row.make 5 9 1 1 1 1 1; Row.make 5 1 1 1 1 1 1]
                ".jpg" "img1/000005.jpg" ∅
  = ({[ "000005.txt" := example_line ]}, Raise KeyError).
Proof.
  rewrite (process_image_partial_file
             (Some 4) [(1, 1); (2, 2); (3, 2); (4, 0)] 100 100
             [example_row; Row.make 5 9 1 1 1 1 1; Row.make 5 1 1 1 1 1 1]
             [example_row] [Row.make 5 1 1 1 1 1 1] (Row.make 5 9 1 1 1 1 1)
             ".jpg" "img1/000005.jpg" "000005" 5 [example_line] KeyError ∅
             eq_refl eq_refl eq_refl).
  - vm_compute. reflexivity.
  - constructor; [|constructor].
    exists 2, example_polygon. split; [reflexivity|].
    split; vm_compute; reflexivity.
  - reflexivity.
  - left. split; reflexivity.
Defined.

(** X3.  Processing an image changes no file of the label directory other
    than the label file of that image, whether it succeeds or raises. *)
Theorem process_image_other_files
    (ball_id : option Z) (id_map : PyDict.t Z) (im_width im_height : Z)
    (df : list Row.t) (ext img_path p : string) (st : store) :
  label_name ext img_path <> Ok p ->
  fst (process_image ball_id id_map im_width im_height df ext img_path st)
  !! p = st !! p.
Proof.
  intros Hp. unfold label_name in Hp. unfold process_image, io_bind, io_lift.
  destruct (PyStr.split_first ext (PyStr.basename img_path)) as [fname|];
    [|reflexivity].
  cbn [rbind] in Hp.
  destruct (PyStr.to_int fname) as [frame_id|]; [|reflexivity].
  destruct (get_group df frame_id) as [rows|]; [|reflexivity].
  unfold open_w.
  assert (Hne : p <> fname +:+ ".txt") by congruence.
  rewrite io_for_other_files by assumption.
  now apply lookup_insert_ne.
Qed.

Lemma process_image_other_files_witness :
  fst (process_image (Some 4) [(1, 1); (2, 2); (3, 2); (4, 0)] 100 100
                     [example_row] ".jpg" "img1/000005.jpg"
                     {[ "000004.txt" := "kept" ]})
  !! "000004.txt" = Some "kept".
Proof.
  rewrite (process_image_other_files
             (Some 4) [(1, 1); (2, 2); (3, 2); (4, 0)] 100 100
             [example_row] ".jpg" "img1/000005.jpg" "000004.txt").
  - reflexivity.
  - vm_compute. discriminate.
Defined.

(** ** The run over a sequence *)

(** [process_data] is the reading of the settings followed, on a fresh label
    directory, by the loop over the images. *)
Lemma process_data_eq (gameinfo seqinfo_ini : config_file)
    (df : list Row.t) (img_paths : list string) (st : store) :
  process_data gameinfo seqinfo_ini df img_paths st =
  match read_settings gameinfo seqinfo_ini with
  | Ok c => process_images c df img_paths ∅
  | Raise e => (st, Raise e)
  end.
Proof.
  unfold process_data, read_settings, process_images, io_bind, io_lift.
  destruct (parse_gameinfo gameinfo) as [[tracklets id_map]|]; [|reflexivity].
  cbn [rbind fst snd].
  destruct (parse_seqinfo seqinfo_ini) as [seqinfo|]; [|reflexivity].
  cbn [rbind].
  destruct (dict_getitem seqinfo "imwidth") as [w|]; [|reflexivity].
  cbn [rbind]. destruct (PyStr.to_int w) as [im_width|]; [|reflexivity].
  cbn [rbind].
  destruct (dict_getitem seqinfo "imheight") as [h|]; [|reflexivity].
  cbn [rbind]. destruct (PyStr.to_int h) as [im_height|]; [|reflexivity].
  cbn [rbind].
  destruct (dict_getitem seqinfo "imext") as [ext|]; [|reflexivity].
  cbn [rbind].
  destruct (dict_getitem seqinfo "imdir") as [imdir|]; reflexivity.
Qed.

Lemma io_for_app {B} (xs ys : list B) (body : B -> io unit) (st : store) :
  io_for (xs ++ ys) body st =
  match io_for xs body st with
  | (st', Ok _) => io_for ys body st'
  | (st', Raise e) => (st', Raise e)
  end.
Proof.
  revert st. induction xs as [|x xs IH]; intros st; [reflexivity|].
  cbn [app]. rewrite !io_for_cons.
  destruct (body x st) as [st' [[]|e]]; [apply IH | reflexivity].
Qed.



(** X5.  Running [process_data] again on the same inputs gives the same
    label directory and the same outcome as the first run: what the
    directory held before a run has no influence once the settings are
    read, and nothing is touched when they cannot be read. *)
Theorem process_data_rerun
    (gameinfo seqinfo_ini : config_file)
    (df : list Row.t) (img_paths : list string) (st : store) :
  process_data gameinfo seqinfo_ini df img_paths
               (fst (process_data gameinfo seqinfo_ini df img_paths st))
  = process_data gameinfo seqinfo_ini df img_paths st
  /\ (is_ok (read_settings gameinfo seqinfo_ini) = true ->
      forall st', process_data gameinfo seqinfo_ini df img_paths st'
                  = process_data gameinfo seqinfo_ini df img_paths st).
Proof.
  split.
  - rewrite !process_data_eq.
    destruct (read_settings gameinfo seqinfo_ini); reflexivity.
  - intros Hok st'. rewrite !process_data_eq.
    destruct (read_settings gameinfo seqinfo_ini); [reflexivity|discriminate].
Qed.

Lemma process_data_rerun_witness :
  process_data example_gameinfo example_seqinfo [example_row]
               ["img1/000005.jpg"] {[ "000001.txt" := "old" ]}
  = process_data example_gameinfo example_seqinfo [example_row]
                 ["img1/000005.jpg"] ∅.
Proof.
  apply (proj2 (process_data_rerun example_gameinfo example_seqinfo
                  [example_row] ["img1/000005.jpg"] ∅)).
  vm_compute. reflexivity.
Defined.

Lemma io_for_keeps_files (ball_id : option Z) (id_map : PyDict.t Z)
    (im_width im_height : Z) (label_spath : string)
    (rows : list Row.t) (p : string) :
  forall st : store,
    is_Some (st !! p) ->
    is_Some (fst (io_for rows
                    (write_row ball_id id_map im_width im_height label_spath)
                    st) !! p).
Proof.
  induction rows as [|r rows IH]; intros st Hp; [assumption|].
  rewrite io_for_cons.
  assert (Hrow : is_Some
            (fst (write_row ball_id id_map im_width im_height label_spath r st)
             !! p)).
  { unfold write_row.
    destruct (differs (Row.track_id r) ball_id); [|assumption].
    unfold io_bind, io_lift.
    destruct (PyDict.getitem id_map (Row.track_id r)); [|assumption].
    destruct (rectangle_to_polygon_normalized _ _ _ _ _ _); [|assumption].
    unfold file_write. cbn [fst].
    destruct (decide (label_spath = p)) as [->|Hne].
    - rewrite lookup_insert_eq. eauto.
    - now rewrite lookup_insert_ne. }
  destruct (write_row _ _ _ _ _ r st) as [st' [[]|e]]; cbn [fst] in *.
  - now apply IH.
  - assumption.
Qed.

(** An image that is processed without exception has its label file, and
    no other file has changed. *)
Lemma process_image_success
    (ball_id : option Z) (id_map : PyDict.t Z) (im_width im_height : Z)
    (df : list Row.t) (ext img_path : string) (st st' : store) :
  process_image ball_id id_map im_width im_height df ext img_path st
  = (st', Ok tt) ->
  exists name,
    label_name ext img_path = Ok name
    /\ is_Some (st' !! name)
    /\ forall p, p <> name -> st' !! p = st !! p.
Proof.
  unfold process_image, label_name, io_bind, io_lift.
  destruct (PyStr.split_first ext (PyStr.basename img_path)) as [fname|];
    [|discriminate].
  destruct (PyStr.to_int fname) as [frame_id|]; [|discriminate].
  destruct (get_group df frame_id) as [rows|]; [|discriminate].
  unfold open_w. intros H. exists (fname +:+ ".txt").
  split; [reflexivity|]. split.
  - replace st' with (fst (io_for rows
        (write_row ball_id id_map im_width im_height (fname +:+ ".txt"))
        (<[fname +:+ ".txt" := EmptyString]> st))) by now rewrite H.
    apply io_for_keeps_files. rewrite lookup_insert_eq. eauto.
  - intros p Hp.
    replace st' with (fst (io_for rows
        (write_row ball_id id_map im_width im_height (fname +:+ ".txt"))
        (<[fname +:+ ".txt" := EmptyString]> st))) by now rewrite H.
    rewrite io_for_other_files by assumption. now apply lookup_insert_ne.
Qed.

Lemma process_images_files (c : settings) (df : list Row.t)
    (img_paths : list string) :
  forall st st' : store,
    process_images c df img_paths st = (st', Ok tt) ->
    forall p,
      is_Some (st' !! p) <->
      is_Some (st !! p)
      \/ exists img, In img img_paths /\ label_name (set_ext c) img = Ok p.
Proof.
  unfold process_images.
  induction img_paths as [|img rest IH]; intros st st' H p.
  - injection H as <-. split; [now left|].
    intros [Hp|[img [[] _]]]. assumption.
  - rewrite io_for_cons in H.
    destruct (process_image _ _ _ _ df (set_ext c) img st)
      as [st1 [[]|e]] eqn:Himg; [|discriminate].
    apply process_image_success in Himg.
    destruct Himg as [name [Hname [Hsome Hother]]].
    rewrite (IH st1 st' H p). split.
    + intros [Hp|[img' [Hin Hl]]].
      * destruct (decide (p = name)) as [->|Hne].
        -- right. exists img. split; [now left | assumption].
        -- left. now rewrite <- Hother.
      * right. exists img'. split; [now right | assumption].
    + intros [Hp|[img' [[<-|Hin] Hl]]].
      * left. destruct (decide (p = name)) as [->|Hne]; [assumption|].
        now rewrite Hother.
      * left. rewrite Hname in Hl. injection Hl as <-. assumption.
      * right. now exists img'.
Qed.

(** X6.  After a run of [process_data] without exception the label
    directory holds one file for each image, named after the image, and no
    other file: files from an earlier run are gone. *)
Theorem process_data_label_files
    (gameinfo seqinfo_ini : config_file)
    (df : list Row.t) (img_paths : list string) (st st' : store) :
  process_data gameinfo seqinfo_ini df img_paths st = (st', Ok tt) ->
  exists c,
    read_settings gameinfo seqinfo_ini = Ok c
    /\ forall p,
        is_Some (st' !! p) <->
        exists img, In img img_paths /\ label_name (set_ext c) img = Ok p.
Proof.
  rewrite process_data_eq.
  destruct (read_settings gameinfo seqinfo_ini) as [c|]; [|discriminate].
  intros H. exists c. split; [reflexivity|]. intros p.
  rewrite (process_images_files c df img_paths ∅ st' H p).
  rewrite lookup_empty. split.
  - intros [[x Hx]|Hp]; [discriminate | assumption].
  - intros Hp. now right.
Qed.

Lemma process_data_label_files_witness :
  exists c,
    read_settings example_gameinfo example_seqinfo = Ok c
    /\ set_ext c = ".jpg".
Proof.
  destruct (process_data_label_files example_gameinfo example_seqinfo
              [example_row] ["img1/000005.jpg"]
              {[ "000001.txt" := "old" ]}
              {[ "000005.txt" := example_line ]})
    as [c [Hc _]].
  - vm_compute. reflexivity.
  - exists c. split; [assumption|].
    assert (H : read_settings example_gameinfo example_seqinfo
                = Ok (make_settings (Some 4) [(1, 1); (2, 2); (3, 2); (4, 0)]
                                    100 100 ".jpg"))
      by (vm_compute; reflexivity).
    rewrite H in Hc. now injection Hc as <-.
Defined.

(** X7.  The run stops at the first image whose processing raises: the
    exception propagates, the images after it are not processed, and apart
    from the label file of the failing image the directory holds the label
    files of the images before it and nothing else. *)
Theorem process_data_stops_at_first_failure
    (gameinfo seqinfo_ini : config_file) (c : settings)
    (df : list Row.t) (pre post : list string) (bad : string)
    (e : exn) (st st1 st2 : store) :
  read_settings gameinfo seqinfo_ini = Ok c ->
  process_images c df pre ∅ = (st1, Ok tt) ->
  process_image (set_ball_id c) (set_id_map c) (set_im_width c)
                (set_im_height c) df (set_ext c) bad st1
  = (st2, Raise e) ->
  process_data gameinfo seqinfo_ini df (pre ++ bad :: post) st
  = (st2, Raise e)
  /\ forall p,
      label_name (set_ext c) bad <> Ok p ->
      (is_Some (st2 !! p) <->
       exists img, In img pre /\ label_name (set_ext c) img = Ok p).
Proof.
  intros Hc Hpre Hbad. split.
  - rewrite process_data_eq, Hc. unfold process_images in *.
    now rewrite io_for_app, Hpre, io_for_cons, Hbad.
  - intros p Hp.
    assert (H2 : st2 !! p = st1 !! p).
    { replace st2 with (fst (process_image (set_ball_id c) (set_id_map c)
                               (set_im_width c) (set_im_height c) df
                               (set_ext c) bad st1)) by now rewrite Hbad.
      unfold label_name in Hp. unfold process_image, io_bind, io_lift.
      destruct (PyStr.split_first (set_ext c) (PyStr.basename bad))
        as [fname|]; [|reflexivity].
      cbn [rbind] in Hp.
      destruct (PyStr.to_int fname) as [frame_id|]; [|reflexivity].
      destruct (get_group df frame_id) as [rows|]; [|reflexivity].
      unfold open_w.
      assert (Hne : p <> fname +:+ ".txt") by congruence.
      rewrite io_for_other_files by assumption.
      now apply lookup_insert_ne. }
    rewrite H2, (process_images_files c df pre ∅ st1 Hpre p), lookup_empty.
    split.
    + intros [[x Hx]|H]; [discriminate | assumption].
    + intros H. now right.
Qed.

Lemma process_data_stops_at_first_failure_witness :
  process_data example_gameinfo example_seqinfo [example_row]
               (["img1/000005.jpg"] ++ "img1/000006.jpg"
                                    :: ["img1/000005.jpg"])
               ∅
  = ({[ "000005.txt" := example_line ]}, Raise KeyError).
Proof.
  apply (process_data_stops_at_first_failure
           example_gameinfo example_seqinfo
           (make_settings (Some 4) [(1, 1); (2, 2); (3, 2); (4, 0)]
                          100 100 ".jpg")
           [example_row] ["img1/000005.jpg"] ["img1/000005.jpg"]
           "img1/000006.jpg" KeyError ∅
           {[ "000005.txt" := example_line ]}
           {[ "000005.txt" := example_line ]});
    vm_compute; reflexivity.
Defined.

(** ** Characters of the numbers that are written *)

Lemma all_chars_app (P : ascii -> bool) (a b : string) :
  all_chars P (a +:+ b) = all_chars P a && all_chars P b.
Proof.
  unfold all_chars. induction a as [|c a IH]; [reflexivity|].
  change (P c && forallb P (list_ascii_of_string (a +:+ b))
          = P c && forallb P (list_ascii_of_string a)
            && forallb P (list_ascii_of_string b)).
  now rewrite IH, andb_assoc.
Qed.

Lemma all_chars_weaken (P Q : ascii -> bool) (s : string) :
  (forall c, P c = true -> Q c = true) ->
  all_chars P s = true -> all_chars Q s = true.
Proof.
  intros HPQ. unfold all_chars. induction s as [|c s IH]; [reflexivity|].
  cbn [list_ascii_of_string forallb]. rewrite !andb_true_iff.
  intros [Hc Hs]. split; [now apply HPQ | now apply IH].
Qed.

Lemma all_chars_substring (P : ascii -> bool) (n m : nat) (s : string) :
  all_chars P s = true -> all_chars P (String.substring n m s) = true.
Proof.
  unfold all_chars. revert n m. induction s as [|c s IH]; intros n m.
  - now destruct n, m.
  - cbn [list_ascii_of_string forallb]. rewrite andb_true_iff.
    intros [Hc Hs]. destruct n as [|n].
    + destruct m as [|m]; [reflexivity|].
      cbn [String.substring list_ascii_of_string forallb].
      rewrite Hc. now apply (IH 0%nat m).
    + cbn [String.substring]. now apply IH.
Qed.

Lemma all_chars_uint (d : Decimal.uint) :
  all_chars is_int_char (NilEmpty.string_of_uint d) = true.
Proof. induction d; try reflexivity; exact IHd. Qed.

(** [str(n)] consists of decimal digits and at most a leading minus. *)
Lemma all_chars_of_int (n : Z) : all_chars is_int_char (PyStr.of_int n) = true.
Proof.
  unfold PyStr.of_int, NilZero.string_of_int.
  destruct (Z.to_int n) as [d|d].
  - unfold NilZero.string_of_uint. destruct d; try reflexivity;
      apply all_chars_uint.
  - assert (Hminus : forall s, all_chars is_int_char s = true ->
                                all_chars is_int_char (String "-" s) = true)
      by (intros s Hs; exact Hs).
    unfold NilZero.string_of_uint.
    destruct d; apply Hminus; try reflexivity; apply all_chars_uint.
Qed.

Lemma is_int_char_cases (c : ascii) :
  is_int_char c = true ->
  negb (PyStr.is_space c) = true /\ is_lower_fixed c = true.
Proof.
  destruct c as [[] [] [] [] [] [] [] []]; cbv; intuition discriminate.
Qed.




(** ** The entries of the parsed registry *)





(** ** The fields of a label line *)

Lemma has_no_space_of_int (n : Z) : has_no_space (PyStr.of_int n) = true.
Proof.
  unfold has_no_space. apply (all_chars_weaken is_int_char).
  - intros c Hc. now apply is_int_char_cases.
  - apply all_chars_of_int.
Qed.

Lemma has_no_space_zeros (n : nat) : has_no_space (PyFloat.zeros n) = true.
Proof. induction n as [|n IH]; [reflexivity | exact IH]. Qed.

Lemma has_no_space_app (a b : string) :
  has_no_space a = true -> has_no_space b = true ->
  has_no_space (a +:+ b) = true.
Proof.
  unfold has_no_space. intros Ha Hb. now rewrite all_chars_app, Ha, Hb.
Qed.

Lemma has_no_space_layout (ds : string) (decpt : Z) :
  has_no_space ds = true -> has_no_space (PyFloat.layout ds decpt) = true.
Proof.
  intros Hds. unfold PyFloat.layout.
  assert (Hsub : forall n m, has_no_space (String.substring n m ds) = true)
    by (intros n m; now apply all_chars_substring).
  destruct ((decpt <=? -4) || (16 <? decpt)).
  - repeat apply has_no_space_app; try apply Hsub; try reflexivity;
      try apply has_no_space_of_int.
    + destruct (1 <? Z.of_nat (String.length ds)); [|reflexivity].
      apply has_no_space_app; [reflexivity | apply Hsub].
    + now destruct (decpt - 1 <? 0).
    + now destruct (Z.abs (decpt - 1) <? 10).
  - destruct (decpt <=? 0).
    + repeat apply has_no_space_app; try reflexivity; try assumption.
      apply has_no_space_zeros.
    + destruct (Z.of_nat (String.length ds) <=? decpt).
      * repeat apply has_no_space_app; try reflexivity; try assumption.
        apply has_no_space_zeros.
      * repeat apply has_no_space_app; try apply Hsub; reflexivity.
Qed.

(** [repr] of a float has no white space in it. *)
Lemma has_no_space_repr (f : spec_float) : has_no_space (PyFloat.repr f) = true.
Proof.
  destruct f as [[]|[]| |s m e]; try reflexivity.
  cbn [PyFloat.repr]. apply has_no_space_app; [now destruct s|].
  unfold PyFloat.repr_finite.
  destruct (if 0 <=? e then _ else _) as [num den].
  destruct (PyFloat.shortest _ _ _ _ _ _ _) as [D k].
  destruct (PyFloat.strip_zeros _ _ _) as [D' k'].
  apply has_no_space_layout, has_no_space_of_int.
Qed.

(** X9.  A label line is its fields joined by single spaces and ended by
    one newline, where the fields are the category code and the
    coordinates; no field contains white space, so the spaces and the
    newline of a line are exactly its separators. *)
Theorem label_line_fields (idt : Z) (c : spec_float) (cs : list spec_float) :
  label_line idt (c :: cs)
  = PyStr.join " " (PyStr.of_int idt :: map PyFloat.repr (c :: cs))
    +:+ PyStr.newline
  /\ Forall (fun field => has_no_space field = true)
            (PyStr.of_int idt :: map PyFloat.repr (c :: cs)).
Proof.
  split.
  - unfold label_line. cbn [map PyStr.join]. now rewrite !string_app_assoc.
  - constructor; [apply has_no_space_of_int|].
    apply List.Forall_forall. intros field Hin. apply in_map_iff in Hin.
    destruct Hin as [f [<- _]]. apply has_no_space_repr.
Qed.

(** ** Rectangles inside the image *)

(** [a / a] is exactly 1.0. *)
Lemma truediv_self (a : Z) :
  0 < a -> PyFloat.truediv a a = Ok (S754_finite false (2 ^ 52) (-52)).
Proof.
  intros Ha. unfold PyFloat.truediv.
  replace (a =? 0) with false by (symmetry; apply Z.eqb_neq; lia).
  replace (a <? 0) with false by (symmetry; apply Z.ltb_ge; lia).
  rewrite Z.abs_eq by lia. cbn [xorb].
  unfold PyFloat.round_ratio, PyFloat.ilog2, PyFloat.scaled_le.
  rewrite Z.sub_diag. cbn [Z.leb Z.compare].
  replace (a * 2 ^ 0 <=? a) with true by (symmetry; apply Z.leb_le; lia).
  unfold PyFloat.prec, PyFloat.emin, PyFloat.emax.
  change (Z.max (0 - (53 - 1)) (-1074)) with (-52).
  unfold PyFloat.significand. change (0 <=? -52) with false. cbv iota.
  change (- -52) with 52. unfold PyFloat.div_nearest_even.
  rewrite (Z.mul_comm a), Z.div_mul, Z.mod_mul by lia.
  replace (2 * 0 ?= a) with Lt by (symmetry; apply Z.compare_lt_iff; lia).
  reflexivity.
Qed.

(** [0 / b] is 0.0 for a positive divisor. *)
Lemma truediv_zero (b : Z) :
  0 < b -> PyFloat.truediv 0 b = Ok (S754_zero false).
Proof.
  intros Hb. unfold PyFloat.truediv.
  replace (b =? 0) with false by (symmetry; apply Z.eqb_neq; lia).
  now replace (b <? 0) with false by (symmetry; apply Z.ltb_ge; lia).
Qed.

Section UnitInterval.
Local Open Scope Q_scope.

(** The value of a rounded ratio is its significand at its exponent. *)
Lemma round_ratio_significand (s : bool) (n d : Z) :
  (0 < n)%Z -> (0 < d)%Z -> inject_Z n < inject_Z d * 2 ^ 1023 ->
  exists f : spec_float,
    PyFloat.round_ratio s n d = Some f
    /\ let ex := Z.max (PyFloat.ilog2 n d - 52) (-1074) in
       PyFloat.to_Q f
       == signed s (inject_Z (PyFloat.significand n d ex) * 2 ^ ex).
Proof.
  intros Hn Hd Hmax.
  destruct (round_ratio_value s n d Hn Hd Hmax) as [f [_ [Hf _]]].
  exists f. split; [assumption|]. cbv zeta. revert Hf.
  unfold PyFloat.round_ratio, PyFloat.prec, PyFloat.emax, PyFloat.emin.
  change (53 - 1)%Z with 52%Z. change (1024 - 53)%Z with 971%Z.
  set (ex := Z.max (PyFloat.ilog2 n d - 52) (-1074)).
  destruct (significand_spec n d ex Hn Hd) as [Hm0 _].
  set (m := PyFloat.significand n d ex) in *.
  destruct (Z.eqb_spec m (2 ^ 53)) as [Hm|Hm].
  - change (2 ^ 52)%Z with (Zpos (2 ^ 52)).
    destruct (ex + 1 <=? 971)%Z; [|discriminate].
    intros [= <-]. cbn [PyFloat.to_Q].
    assert (E : inject_Z (Zpos (2 ^ 52)) * 2 ^ (ex + 1)
                == inject_Z m * 2 ^ ex).
    { rewrite Hm, pow2_add.
      change (2 ^ 53)%Z with (2 * Zpos (2 ^ 52))%Z.
      rewrite inject_Z_mult. change (inject_Z 2) with 2.
      change (2 ^ 1) with 2. ring. }
    destruct s; cbn [signed]; now rewrite E.
  - destruct m as [|p|p].
    + intros [= <-]. cbn [PyFloat.to_Q]. change (inject_Z 0) with 0.
      destruct s; cbn [signed]; ring.
    + destruct (ex <=? 971)%Z; [|discriminate].
      intros [= <-]. reflexivity.
    + lia.
Qed.

(** A quotient of [0 <= a <= b] lies between 0 and 1. *)
Lemma truediv_unit (a b : Z) :
  (0 <= a <= b)%Z -> (0 < b)%Z ->
  exists f : spec_float,
    PyFloat.truediv a b = Ok f /\ 0 <= PyFloat.to_Q f <= 1.
Proof.
  intros Hab Hb. unfold PyFloat.truediv.
  replace (b =? 0)%Z with false by (symmetry; apply Z.eqb_neq; lia).
  replace (a <? 0)%Z with false by (symmetry; apply Z.ltb_ge; lia).
  replace (b <? 0)%Z with false by (symmetry; apply Z.ltb_ge; lia).
  cbn [xorb]. destruct (Z.eqb_spec a 0) as [->|Ha0].
  { eexists. split; [reflexivity|]. cbn [PyFloat.to_Q]. split; lra. }
  rewrite !Z.abs_eq by lia.
  assert (Hn : (0 < a)%Z) by lia.
  assert (Hle : inject_Z a <= inject_Z b) by (rewrite <- Zle_Qle; lia).
  assert (Hb' : inject_Z 0 < inject_Z b) by (now rewrite <- Zlt_Qlt).
  change (inject_Z 0) with 0 in Hb'.
  assert (Hmax : inject_Z a < inject_Z b * 2 ^ 1023).
  { assert (H2 : 2 ^ 1 <= 2 ^ 1023) by (apply pow2_mono; lia).
    change (2 ^ 1) with 2 in H2. set (B := 2 ^ 1023) in *. nra. }
  destruct (round_ratio_significand false a b Hn Hb Hmax) as [f [Hf Hv]].
  rewrite Hf. exists f. split; [reflexivity|]. cbv zeta in Hv.
  rewrite Hv. cbn [signed]. clear Hf Hv Hmax.
  destruct (ilog2_spec a b Hn Hb) as [Hlg1 _].
  set (lg := PyFloat.ilog2 a b) in *.
  assert (Hlg : (lg <= 0)%Z).
  { destruct (Z_le_gt_dec lg 0) as [H|H]; [assumption|]. exfalso.
    assert (H2 : 2 ^ 1 <= 2 ^ lg) by (apply pow2_mono; lia).
    change (2 ^ 1) with 2 in H2. set (L := 2 ^ lg) in *. nra. }
  set (ex := Z.max (lg - 52) (-1074)).
  assert (Hex : (ex <= -52)%Z) by (unfold ex; lia).
  destruct (significand_spec a b ex Hn Hb) as [Hm0 [_ Hhi]].
  set (m := PyFloat.significand a b ex) in *.
  assert (Hm0' : 0 <= inject_Z m).
  { change 0 with (inject_Z 0). now rewrite <- Zle_Qle. }
  pose proof (pow2_pos ex) as HP. pose proof (pow2_cancel ex) as Hc.
  pose proof (pow2_pos (- ex)) as HT.
  assert (HTz : inject_Z (2 ^ (- ex)) == 2 ^ (- ex))
    by (apply pow2_inject; lia).
  set (T := (2 ^ (- ex))%Z) in *.
  set (P := 2 ^ ex) in *. set (Tq := 2 ^ (- ex)) in *.
  assert (HmT : (m <= T)%Z).
  { assert (H1 : 2 * inject_Z m * P <= 2 + P) by nra.
    assert (H2 : 2 * inject_Z m * P * Tq <= (2 + P) * Tq).
    { apply Qmult_le_compat_r; lra. }
    assert (H3 : 2 * inject_Z m * P * Tq == 2 * inject_Z m).
    { rewrite <- Qmult_assoc, (Qmult_comm P Tq), Hc. ring. }
    assert (H4 : (2 + P) * Tq == 2 * Tq + 1).
    { rewrite <- Hc. ring. }
    assert (H5 : inject_Z (2 * m) <= inject_Z (2 * T + 1)).
    { rewrite inject_Z_plus, !inject_Z_mult, HTz.
      change (inject_Z 2) with 2. change (inject_Z 1) with 1. lra. }
    rewrite <- Zle_Qle in H5. lia. }
  split; [nra|].
  assert (H6 : inject_Z m <= Tq) by (rewrite <- HTz, <- Zle_Qle; exact HmT).
  assert (H7 : inject_Z m * P <= Tq * P).
  { apply Qmult_le_compat_r; lra. }
  lra.
Qed.
End UnitInterval.

(** X10.  A rectangle that lies inside the image, with non-negative
    position and size and its right and bottom edge within the image
    dimensions, gives 8 coordinates between 0 and 1, whatever the size of
    the numbers; the rectangle of the whole image gives exactly the corners
    (0.0, 0.0), (1.0, 0.0), (1.0, 1.0), (0.0, 1.0). *)
Theorem rectangle_inside_image_in_unit_interval
    (x0 y0 width height img_width img_height : Z) :
  0 <= x0 -> 0 <= width -> x0 + width <= img_width -> 0 < img_width ->
  0 <= y0 -> 0 <= height -> y0 + height <= img_height -> 0 < img_height ->
  (exists l : list spec_float,
      rectangle_to_polygon_normalized x0 y0 width height img_width img_height
      = Ok l
      /\ length l = 8%nat
      /\ forall f, In f l -> (0 <= PyFloat.to_Q f <= 1)%Q)
  /\ rectangle_to_polygon_normalized 0 0 img_width img_height
                                     img_width img_height
     = Ok (let zero := S754_zero false in
           let one := S754_finite false (2 ^ 52) (-52) in
           [zero; zero; one; zero; one; one; zero; one]).
Proof.
  intros Hx0 Hw Hx1 HW Hy0 Hh Hy1 HH. split.
  - destruct (truediv_unit x0 img_width ltac:(lia) HW) as [cx0 [Hcx0 Bx0]].
    destruct (truediv_unit y0 img_height ltac:(lia) HH) as [cy0 [Hcy0 By0]].
    destruct (truediv_unit (x0 + width) img_width ltac:(lia) HW)
      as [cx1 [Hcx1 Bx1]].
    destruct (truediv_unit (y0 + height) img_height ltac:(lia) HH)
      as [cy1 [Hcy1 By1]].
    exists [cx0; cy0; cx1; cy0; cx1; cy1; cx0; cy1].
    split; [now apply rectangle_to_polygon_normalized_ok|].
    split; [reflexivity|].
    intros f Hf. cbn [In] in Hf.
    repeat (destruct Hf as [<-|Hf]; [assumption|]). contradiction.
  - apply rectangle_to_polygon_normalized_ok;
      first [ apply truediv_zero; assumption | apply truediv_self; lia ].
Qed.

Lemma rectangle_inside_image_in_unit_interval_witness :
  exists l : list spec_float,
    rectangle_to_polygon_normalized 10 20 100 50 200 100 = Ok l
    /\ forall f, In f l -> (0 <= PyFloat.to_Q f <= 1)%Q.
Proof.
  destruct (proj1 (rectangle_inside_image_in_unit_interval
                     10 20 100 50 200 100
                     ltac:(lia) ltac:(lia) ltac:(lia) ltac:(lia)
                     ltac:(lia) ltac:(lia) ltac:(lia) ltac:(lia)))
    as [l [Hl [_ Hin]]].
  exists l. split; assumption.
Defined.

(** ** Scaling the rectangle with the image *)

Section Scaling.
Local Open Scope Q_scope.

(** The binary exponent of a ratio is determined by its two bounds. *)
Lemma ilog2_unique (n d a b : Z) :
  (0 < d)%Z ->
  inject_Z d * 2 ^ a <= inject_Z n -> inject_Z n < inject_Z d * 2 ^ (a + 1) ->
  inject_Z d * 2 ^ b <= inject_Z n -> inject_Z n < inject_Z d * 2 ^ (b + 1) ->
  a = b.
Proof.
  intros Hd Ha1 Ha2 Hb1 Hb2.
  assert (Hd' : inject_Z 0 < inject_Z d) by (now rewrite <- Zlt_Qlt).
  change (inject_Z 0) with 0 in Hd'.
  assert (H1 : 2 ^ a < 2 ^ (b + 1)).
  { pose proof (pow2_pos a). pose proof (pow2_pos (b + 1)).
    set (A := 2 ^ a) in *. set (B := 2 ^ (b + 1)) in *. nra. }
  assert (H2 : 2 ^ b < 2 ^ (a + 1)).
  { pose proof (pow2_pos b). pose proof (pow2_pos (a + 1)).
    set (A := 2 ^ b) in *. set (B := 2 ^ (a + 1)) in *. nra. }
  apply pow2_lt_inv in H1, H2. lia.
Qed.

Lemma ilog2_scale (k n d : Z) :
  (0 < k)%Z -> (0 < n)%Z -> (0 < d)%Z ->
  PyFloat.ilog2 (k * n) (k * d) = PyFloat.ilog2 n d.
Proof.
  intros Hk Hn Hd.
  destruct (ilog2_spec n d Hn Hd) as [H1 H2].
  destruct (ilog2_spec (k * n) (k * d) ltac:(lia) ltac:(lia)) as [H3 H4].
  rewrite !inject_Z_mult in H3, H4.
  assert (Hk' : inject_Z 0 < inject_Z k) by (now rewrite <- Zlt_Qlt).
  change (inject_Z 0) with 0 in Hk'.
  apply (ilog2_unique n d); try assumption.
  - pose proof (pow2_pos (PyFloat.ilog2 (k * n) (k * d))).
    set (L := 2 ^ PyFloat.ilog2 (k * n) (k * d)) in *.
    clear H1 H2 H4. nra.
  - pose proof (pow2_pos (PyFloat.ilog2 (k * n) (k * d) + 1)).
    set (L := 2 ^ (PyFloat.ilog2 (k * n) (k * d) + 1)) in *.
    clear H1 H2 H3. nra.
Qed.
End Scaling.

Lemma div_nearest_even_scale (k N D : Z) :
  0 < k -> 0 < D ->
  PyFloat.div_nearest_even (k * N) (k * D) = PyFloat.div_nearest_even N D.
Proof.
  intros Hk HD. unfold PyFloat.div_nearest_even.
  rewrite Z.div_mul_cancel_l, Z.mul_mod_distr_l by lia.
  replace (2 * (k * (N mod D))) with (k * (2 * (N mod D))) by ring.
  assert (Hc : (k * (2 * (N mod D)) ?= k * D) = (2 * (N mod D) ?= D)).
  { destruct (Z.compare_spec (2 * (N mod D)) D) as [E|E|E];
      [apply Z.compare_eq_iff | apply Z.compare_lt_iff
      | apply Z.compare_gt_iff]; nia. }
  now rewrite Hc.
Qed.

Lemma significand_scale (k n d ex : Z) :
  0 < k -> 0 < d ->
  PyFloat.significand (k * n) (k * d) ex = PyFloat.significand n d ex.
Proof.
  intros Hk Hd. unfold PyFloat.significand.
  destruct (Z.leb_spec 0 ex) as [Hex|Hex].
  - rewrite <- Z.mul_assoc. apply div_nearest_even_scale; [assumption|].
    apply Z.mul_pos_pos; [assumption|]. apply Z.pow_pos_nonneg; lia.
  - rewrite <- Z.mul_assoc. now apply div_nearest_even_scale.
Qed.

Lemma round_ratio_scale (s : bool) (k n d : Z) :
  0 < k -> 0 < n -> 0 < d ->
  PyFloat.round_ratio s (k * n) (k * d) = PyFloat.round_ratio s n d.
Proof.
  intros Hk Hn Hd. unfold PyFloat.round_ratio.
  now rewrite ilog2_scale, significand_scale by assumption.
Qed.

(** The quotient depends on the ratio only. *)
Lemma truediv_scale (k a b : Z) :
  0 < k -> PyFloat.truediv (k * a) (k * b) = PyFloat.truediv a b.
Proof.
  intros Hk. unfold PyFloat.truediv.
  assert (Hz : forall x, (k * x =? 0) = (x =? 0)).
  { intros x. destruct (Z.eqb_spec x 0) as [->|Hx].
    - now rewrite Z.mul_0_r.
    - apply Z.eqb_neq. nia. }
  assert (Hs : forall x, (k * x <? 0) = (x <? 0)).
  { intros x. destruct (Z.ltb_spec x 0) as [Hx|Hx].
    - apply Z.ltb_lt. nia.
    - apply Z.ltb_ge. nia. }
  rewrite !Hz, !Hs.
  destruct (Z.eqb_spec b 0) as [|Hb]; [reflexivity|].
  destruct (Z.eqb_spec a 0) as [|Ha]; [reflexivity|].
  rewrite !Z.abs_mul, (Z.abs_eq k) by lia.
  now rewrite round_ratio_scale by lia.
Qed.

(** X11.  Scaling the rectangle and the image by the same positive factor
    does not change the result: the same 8 floats, bit for bit, or the same
    exception.  The normalised polygon depends on the ratios only, not on
    the resolution. *)
Theorem rectangle_scale_invariant
    (k x0 y0 width height img_width img_height : Z) :
  0 < k ->
  rectangle_to_polygon_normalized (k * x0) (k * y0) (k * width) (k * height)
                                  (k * img_width) (k * img_height)
  = rectangle_to_polygon_normalized x0 y0 width height img_width img_height.
Proof.
  intros Hk. unfold rectangle_to_polygon_normalized.
  rewrite <- !Z.mul_add_distr_l. now rewrite !truediv_scale by assumption.
Qed.

Lemma rectangle_scale_invariant_witness :
  rectangle_to_polygon_normalized 30 60 300 150 600 300
  = rectangle_to_polygon_normalized 10 20 100 50 200 100.
Proof. apply (rectangle_scale_invariant 3 10 20 100 50 200 100). lia. Defined.

(** ** What a successful run leaves in the label files *)

Lemma string_length_app (a b : string) :
  String.length (a +:+ b) = (String.length a + String.length b)%nat.
Proof.
  induction a as [|x a IH]; [reflexivity|].
  change (S (String.length (a +:+ b))
          = S (String.length a + String.length b)).
  now rewrite IH.
Qed.

(** Two names with the same suffix appended are equal only if they are the
    same name. *)
Lemma string_app_inv_r (a b c : string) : a +:+ c = b +:+ c -> a = b.
Proof.
  revert b. induction a as [|x a IH]; intros [|y b] H.
  - reflexivity.
  - apply (f_equal String.length) in H.
    change (String.length c = S (String.length (b +:+ c))) in H.
    rewrite string_length_app in H. lia.
  - apply (f_equal String.length) in H.
    change (S (String.length (a +:+ c)) = String.length c) in H.
    rewrite string_length_app in H. lia.
  - change (String x (a +:+ c) = String y (b +:+ c)) in H.
    injection H as -> H. f_equal. now apply IH.
Qed.

Lemma writes_line_functional (id_map : PyDict.t Z) (im_width im_height : Z)
    (rows : list Row.t) (lines lines' : list string) :
  Forall2 (writes_line id_map im_width im_height) rows lines ->
  Forall2 (writes_line id_map im_width im_height) rows lines' ->
  lines = lines'.
Proof.
  intros H. revert lines'. induction H as [|r l rows lines Hl _ IH];
    intros lines' H'; inversion H' as [|? l' ? lines'' Hl' H'']; subst;
    [reflexivity|].
  f_equal; [|now apply IH].
  destruct Hl as [idt [coords [Hg [Hp ->]]]].
  destruct Hl' as [idt' [coords' [Hg' [Hp' ->]]]]. congruence.
Qed.

(** A loop over the rows that ends without exception has written a line
    for every row outside the ball track. *)
Lemma io_for_ok_lines (ball_id : option Z) (id_map : PyDict.t Z)
    (im_width im_height : Z) (label_spath : string) (rows : list Row.t) :
  forall st st' : store,
    io_for rows (write_row ball_id id_map im_width im_height label_spath) st
    = (st', Ok tt) ->
    exists lines,
      Forall2 (writes_line id_map im_width im_height)
              (List.filter (fun r => differs (Row.track_id r) ball_id) rows)
              lines.
Proof.
  induction rows as [|r rows IH]; intros st st' H.
  - exists []. constructor.
  - rewrite io_for_cons in H. cbn [List.filter].
    destruct (write_row ball_id id_map im_width im_height label_spath r st)
      as [st1 [[]|e]] eqn:Hrow; [|discriminate].
    destruct (IH st1 st' H) as [lines HF].
    destruct (differs (Row.track_id r) ball_id) eqn:Hd; [|now exists lines].
    unfold write_row, PyDict.getitem, io_bind, io_lift in Hrow.
    rewrite Hd in Hrow.
    destruct (PyDict.get id_map (Row.track_id r)) as [idt|] eqn:Hg;
      [|discriminate].
    destruct (rectangle_to_polygon_normalized _ _ _ _ _ _) as [coords|] eqn:Hp;
      [|discriminate].
    exists (label_line idt coords :: lines). constructor; [|assumption].
    now exists idt, coords.
Qed.

(** An image that is processed without exception had a frame with rows,
    and its label file holds the lines of the rows outside the ball
    track. *)
Lemma process_image_ok_inv
    (ball_id : option Z) (id_map : PyDict.t Z) (im_width im_height : Z)
    (df : list Row.t) (ext img_path : string) (st st' : store) :
  process_image ball_id id_map im_width im_height df ext img_path st
  = (st', Ok tt) ->
  exists fname frame_id rows lines,
    PyStr.split_first ext (PyStr.basename img_path) = Ok fname
    /\ PyStr.to_int fname = Ok frame_id
    /\ get_group df frame_id = Ok rows
    /\ Forall2 (writes_line id_map im_width im_height)
               (List.filter (fun r => differs (Row.track_id r) ball_id) rows)
               lines
    /\ st' = <[fname +:+ ".txt" := file_text lines]> st.
Proof.
  intros H.
  destruct (PyStr.split_first ext (PyStr.basename img_path)) as [fname|]
    eqn:Hname;
    [|unfold process_image, io_bind, io_lift in H; rewrite Hname in H;
      discriminate].
  destruct (PyStr.to_int fname) as [frame_id|] eqn:Hint;
    [|unfold process_image, io_bind, io_lift in H;
      rewrite Hname, Hint in H; discriminate].
  destruct (get_group df frame_id) as [rows|] eqn:Hg;
    [|unfold process_image, io_bind, io_lift in H;
      rewrite Hname, Hint, Hg in H; discriminate].
  rewrite (process_image_eq _ _ _ _ _ rows _ _ fname frame_id) in H
    by assumption.
  destruct (io_for_ok_lines _ _ _ _ _ _ _ _ H) as [lines HF].
  exists fname, frame_id, rows, lines. repeat (split; [assumption|]).
  rewrite (io_for_appends_lines _ _ _ _ _ rows lines HF _ EmptyString) in H
    by apply lookup_insert_eq.
  rewrite insert_insert_eq in H. now injection H as <-.
Qed.

Lemma process_images_lookup (c : settings) (df : list Row.t)
    (img_paths : list string) (p : string) :
  forall st st' : store,
    process_images c df img_paths st = (st', Ok tt) ->
    (exists img, In img img_paths /\ label_name (set_ext c) img = Ok p)
    \/ st' !! p = st !! p.
Proof.
  unfold process_images.
  induction img_paths as [|img rest IH]; intros st st' H.
  - injection H as <-. now right.
  - rewrite io_for_cons in H.
    destruct (process_image _ _ _ _ df (set_ext c) img st)
      as [st1 [[]|e]] eqn:Himg; [|discriminate].
    apply process_image_success in Himg.
    destruct Himg as [name [Hname [_ Hother]]].
    destruct (IH st1 st' H) as [[img' [Hin Hl]]|Heq].
    + left. exists img'. split; [now right | assumption].
    + destruct (decide (p = name)) as [->|Hne].
      * left. exists img. split; [now left | assumption].
      * right. now rewrite Heq, Hother.
Qed.

(** X12.  After a run of [process_data] without exception, the label file
    of every image holds exactly the lines of the rows of the image's
    frame that are not rows of the ball track, one line per row and in
    table order; every frame of an image had at least one row. *)
Theorem process_data_file_contents
    (gameinfo seqinfo_ini : config_file)
    (df : list Row.t) (img_paths : list string) (st st' : store) :
  process_data gameinfo seqinfo_ini df img_paths st = (st', Ok tt) ->
  exists c,
    read_settings gameinfo seqinfo_ini = Ok c
    /\ forall img, In img img_paths ->
       exists fname frame_id rows lines,
         PyStr.split_first (set_ext c) (PyStr.basename img) = Ok fname
         /\ PyStr.to_int fname = Ok frame_id
         /\ get_group df frame_id = Ok rows
         /\ Forall2 (writes_line (set_id_map c)
                                 (set_im_width c) (set_im_height c))
                    (List.filter
                       (fun r => differs (Row.track_id r) (set_ball_id c))
                       rows)
                    lines
         /\ st' !! (fname +:+ ".txt") = Some (file_text lines).
Proof.
  rewrite process_data_eq.
  destruct (read_settings gameinfo seqinfo_ini) as [c|]; [|discriminate].
  intros H. exists c. split; [reflexivity|].
  revert H. generalize (∅ : store) as st0. unfold process_images.
  induction img_paths as [|img0 rest IH]; intros st0 H img Hin;
    [contradiction|].
  rewrite io_for_cons in H.
  destruct (process_image _ _ _ _ df (set_ext c) img0 st0)
    as [st1 [[]|e]] eqn:Himg; [|discriminate].
  destruct Hin as [<-|Hin]; [|now apply (IH st1)].
  destruct (process_image_ok_inv _ _ _ _ _ _ _ _ _ Himg)
    as [fname [frame_id [rows [lines [Hname [Hint [Hg [HF ->]]]]]]]].
  exists fname, frame_id, rows, lines. repeat (split; [assumption|]).
  destruct (process_images_lookup c df rest (fname +:+ ".txt") _ _ H)
    as [[img' [Hin' Hl]]|Heq].
  - destruct (IH _ H img' Hin')
      as [fname' [frame_id' [rows' [lines' [Hn' [Hi' [Hg' [HF' Hst]]]]]]]].
    unfold label_name in Hl. rewrite Hn' in Hl. cbn [rbind] in Hl.
    injection Hl as Hl. rewrite Hl in Hst. rewrite Hst. do 2 f_equal.
    apply string_app_inv_r in Hl. subst fname'. rewrite Hint in Hi'. injection Hi' as <-.
    rewrite Hg in Hg'. injection Hg' as <-.
    eapply writes_line_functional; eassumption.
  - rewrite Heq. apply lookup_insert_eq.
Qed.

Lemma process_data_file_contents_witness :
  exists c,
    read_settings example_gameinfo example_seqinfo = Ok c
    /\ set_im_width c = 100.
Proof.
  destruct (process_data_file_contents example_gameinfo example_seqinfo
              [example_row] ["img1/000005.jpg"] ∅
              {[ "000005.txt" := example_line ]})
    as [c [Hc _]].
  - vm_compute. reflexivity.
  - exists c. split; [assumption|].
    assert (H : read_settings example_gameinfo example_seqinfo
                = Ok (make_settings (Some 4) [(1, 1); (2, 2); (3, 2); (4, 0)]
                                    100 100 ".jpg"))
      by (vm_compute; reflexivity).
    rewrite H in Hc. now injection Hc as <-.
Defined.

(** ** Rounding keeps the order of the corners *)

Lemma div_nearest_even_mono (N N' D : Z) :
  0 <= N <= N' -> 0 < D ->
  PyFloat.div_nearest_even N D <= PyFloat.div_nearest_even N' D.
Proof.
  intros HN HD. destruct (Z.eq_dec N N') as [->|Hne]; [lia|].
  destruct (div_nearest_even_spec N D ltac:(lia) HD) as [_ [_ Hhi]].
  destruct (div_nearest_even_spec N' D ltac:(lia) HD) as [_ [Hlo _]].
  cbv zeta in Hhi, Hlo. nia.
Qed.

Lemma significand_mono (n n' d ex : Z) :
  0 < n <= n' -> 0 < d ->
  PyFloat.significand n d ex <= PyFloat.significand n' d ex.
Proof.
  intros Hn Hd. unfold PyFloat.significand.
  destruct (Z.leb_spec 0 ex) as [Hex|Hex].
  - apply div_nearest_even_mono; [lia|].
    apply Z.mul_pos_pos; [assumption|]. apply Z.pow_pos_nonneg; lia.
  - apply div_nearest_even_mono; [|assumption].
    assert (0 < 2 ^ (- ex)) by (apply Z.pow_pos_nonneg; lia). nia.
Qed.

Section Monotone.
Local Open Scope Q_scope.

#[local] Abbreviation exponent_of n d :=
  (Z.max (PyFloat.ilog2 n d - 52) (-1074)).

#[local] Abbreviation magnitude n d :=
  (inject_Z (PyFloat.significand n d (exponent_of n d))
   * 2 ^ exponent_of n d).

(** The value of a rounded ratio, when there is one. *)
Lemma round_ratio_some_value (s : bool) (n d : Z) (f : spec_float) :
  (0 < n)%Z -> (0 < d)%Z ->
  PyFloat.round_ratio s n d = Some f ->
  PyFloat.to_Q f == signed s (magnitude n d).
Proof.
  intros Hn Hd.
  unfold PyFloat.round_ratio, PyFloat.prec, PyFloat.emax, PyFloat.emin.
  change (53 - 1)%Z with 52%Z. change (1024 - 53)%Z with 971%Z.
  set (ex := exponent_of n d).
  destruct (significand_spec n d ex Hn Hd) as [Hm0 _].
  set (m := PyFloat.significand n d ex) in *.
  destruct (Z.eqb_spec m (2 ^ 53)) as [Hm|Hm].
  - change (2 ^ 52)%Z with (Zpos (2 ^ 52)).
    destruct (ex + 1 <=? 971)%Z; [|discriminate].
    intros [= <-]. cbn [PyFloat.to_Q].
    assert (E : inject_Z (Zpos (2 ^ 52)) * 2 ^ (ex + 1)
                == inject_Z m * 2 ^ ex).
    { rewrite Hm, pow2_add.
      change (2 ^ 53)%Z with (2 * Zpos (2 ^ 52))%Z.
      rewrite inject_Z_mult. change (inject_Z 2) with 2.
      change (2 ^ 1) with 2. ring. }
    destruct s; cbn [signed]; now rewrite E.
  - destruct m as [|p|p].
    + intros [= <-]. cbn [PyFloat.to_Q]. change (inject_Z 0) with 0.
      destruct s; cbn [signed]; ring.
    + destruct (ex <=? 971)%Z; [|discriminate].
      intros [= <-]. reflexivity.
    + lia.
Qed.

Lemma magnitude_nonneg (n d : Z) :
  (0 < n)%Z -> (0 < d)%Z -> 0 <= magnitude n d.
Proof.
  intros Hn Hd.
  destruct (significand_spec n d (exponent_of n d) Hn Hd) as [Hm0 _].
  cbv zeta in Hm0. rewrite Zle_Qle in Hm0. change (inject_Z 0) with 0 in Hm0.
  pose proof (pow2_pos (exponent_of n d)).
  set (m := inject_Z _) in *. set (P := 2 ^ _) in *. nra.
Qed.

Lemma ilog2_mono (n n' d : Z) :
  (0 < n <= n')%Z -> (0 < d)%Z ->
  (PyFloat.ilog2 n d <= PyFloat.ilog2 n' d)%Z.
Proof.
  intros Hn Hd.
  destruct (ilog2_spec n d ltac:(lia) Hd) as [H1 _].
  destruct (ilog2_spec n' d ltac:(lia) Hd) as [_ H2].
  assert (Hle : inject_Z n <= inject_Z n') by (rewrite <- Zle_Qle; lia).
  assert (Hd' : inject_Z 0 < inject_Z d) by (now rewrite <- Zlt_Qlt).
  change (inject_Z 0) with 0 in Hd'.
  assert (H : 2 ^ PyFloat.ilog2 n d < 2 ^ (PyFloat.ilog2 n' d + 1)).
  { pose proof (pow2_pos (PyFloat.ilog2 n d)).
    pose proof (pow2_pos (PyFloat.ilog2 n' d + 1)).
    set (A := 2 ^ PyFloat.ilog2 n d) in *.
    set (B := 2 ^ (PyFloat.ilog2 n' d + 1)) in *. nra. }
  apply pow2_lt_inv in H. lia.
Qed.
(** A rounded ratio does not exceed the power of two above the ratio. *)
Lemma magnitude_upper (n d : Z) :
  (0 < n)%Z -> (0 < d)%Z ->
  magnitude n d <= 2 ^ (PyFloat.ilog2 n d + 1).
Proof.
  intros Hn Hd. set (ex := exponent_of n d).
  destruct (ilog2_spec n d Hn Hd) as [_ Hlg2].
  set (lg := PyFloat.ilog2 n d) in *.
  destruct (significand_spec n d ex Hn Hd) as [Hm0 [_ Hhi]].
  set (m := PyFloat.significand n d ex) in *.
  assert (Hd' : inject_Z 0 < inject_Z d) by (now rewrite <- Zlt_Qlt).
  change (inject_Z 0) with 0 in Hd'.
  pose proof (pow2_pos ex) as HP.
  assert (Hsplit : 2 ^ (lg + 1) == 2 ^ (lg + 1 - ex) * 2 ^ ex).
  { rewrite <- pow2_add. now replace (lg + 1 - ex + ex)%Z with (lg + 1)%Z by lia. }
  pose proof (pow2_pos (lg + 1 - ex)) as HJ.
  set (P := 2 ^ ex) in *. set (L := 2 ^ (lg + 1)) in *.
  assert (HX : 0 < P * inject_Z d) by nra.
  destruct (Z_le_gt_dec 0 (lg + 1 - ex)) as [Hj|Hj].
  - assert (HJz : inject_Z (2 ^ (lg + 1 - ex)) == 2 ^ (lg + 1 - ex))
      by (now apply pow2_inject).
    set (J := (2 ^ (lg + 1 - ex))%Z) in *. set (Jq := 2 ^ (lg + 1 - ex)) in *.
    assert (HmJ : (m <= J)%Z).
    { assert (H : inject_Z (2 * m) < inject_Z (2 * J + 1)).
      { rewrite inject_Z_plus, !inject_Z_mult, HJz.
        change (inject_Z 2) with 2. change (inject_Z 1) with 1.
        apply Qnot_le_lt. intros Hge.
        assert (H1 : (2 * Jq + 1) * (P * inject_Z d)
                     <= 2 * inject_Z m * (P * inject_Z d)).
        { apply Qmult_le_compat_r; lra. }
        nra. }
      rewrite <- Zlt_Qlt in H. lia. }
    assert (H1 : inject_Z m <= Jq) by (rewrite <- HJz, <- Zle_Qle; exact HmJ).
    assert (H2 : inject_Z m * P <= Jq * P).
    { apply Qmult_le_compat_r; lra. }
    lra.
  - assert (Hhalf : 2 ^ (lg + 1 - ex) <= 2 ^ (-1)) by (apply pow2_mono; lia).
    change (2 ^ (-1)) with (1 # 2) in Hhalf.
    set (Jq := 2 ^ (lg + 1 - ex)) in *.
    assert (Hm1 : (m <= 0)%Z).
    { assert (H : inject_Z m < inject_Z 1).
      { change (inject_Z 1) with 1. apply Qnot_le_lt. intros Hge.
        assert (H1 : 1 * (P * inject_Z d) <= inject_Z m * (P * inject_Z d)).
        { apply Qmult_le_compat_r; lra. }
        assert (H2 : Jq * (P * inject_Z d) <= (1 # 2) * (P * inject_Z d)).
        { apply Qmult_le_compat_r; lra. }
        nra. }
      rewrite <- Zlt_Qlt in H. lia. }
    replace m with 0%Z by lia. change (inject_Z 0) with 0. nra.
Qed.

(** In the normal range a rounded ratio is not below the power of two
    below the ratio. *)
Lemma magnitude_lower (n d : Z) :
  (0 < n)%Z -> (0 < d)%Z -> (-1074 <= PyFloat.ilog2 n d - 52)%Z ->
  2 ^ PyFloat.ilog2 n d <= magnitude n d.
Proof.
  intros Hn Hd Hnormal.
  replace (exponent_of n d) with (PyFloat.ilog2 n d - 52)%Z by lia.
  destruct (ilog2_spec n d Hn Hd) as [Hlg1 _].
  set (lg := PyFloat.ilog2 n d) in *.
  destruct (significand_spec n d (lg - 52) Hn Hd) as [Hm0 [Hlo _]].
  set (m := PyFloat.significand n d (lg - 52)) in *.
  assert (Hd' : inject_Z 0 < inject_Z d) by (now rewrite <- Zlt_Qlt).
  change (inject_Z 0) with 0 in Hd'.
  pose proof (pow2_pos (lg - 52)) as HP.
  assert (Hsplit : 2 ^ lg == inject_Z (2 ^ 52) * 2 ^ (lg - 52)).
  { rewrite pow2_inject by lia. rewrite <- pow2_add.
    now replace (52 + (lg - 52))%Z with lg by lia. }
  set (K := (2 ^ 52)%Z) in *.
  set (P := 2 ^ (lg - 52)) in *. set (L := 2 ^ lg) in *.
  assert (HX : 0 < P * inject_Z d) by nra.
  assert (HmK : (K <= m)%Z).
  { destruct (Z_lt_ge_dec m K) as [Hlt|Hge]; [exfalso | lia].
    assert (H : inject_Z m <= inject_Z (K + -1)) by (rewrite <- Zle_Qle; lia).
    rewrite inject_Z_plus in H. change (inject_Z (-1)) with (- (1)) in H.
    assert (H1 : inject_Z m * (P * inject_Z d)
                 <= (inject_Z K + - (1)) * (P * inject_Z d)).
    { apply Qmult_le_compat_r; lra. }
    nra. }
  assert (H1 : inject_Z K <= inject_Z m) by (rewrite <- Zle_Qle; exact HmK).
  assert (H2 : inject_Z K * P <= inject_Z m * P).
  { apply Qmult_le_compat_r; lra. }
  lra.
Qed.

(** Rounding is monotone in the numerator. *)
Lemma magnitude_mono (n n' d : Z) :
  (0 < n <= n')%Z -> (0 < d)%Z -> magnitude n d <= magnitude n' d.
Proof.
  intros Hn Hd.
  pose proof (ilog2_mono n n' d Hn Hd) as Hlg.
  destruct (Z.eq_dec (exponent_of n d) (exponent_of n' d)) as [Heq|Hne].
  - rewrite <- Heq.
    pose proof (significand_mono n n' d (exponent_of n d) Hn Hd) as Hm.
    rewrite Zle_Qle in Hm. pose proof (pow2_pos (exponent_of n d)).
    apply Qmult_le_compat_r; [assumption | lra].
  - pose proof (magnitude_upper n d ltac:(lia) Hd) as Hup.
    pose proof (magnitude_lower n' d ltac:(lia) Hd ltac:(lia)) as Hlo.
    assert (Hpow : 2 ^ (PyFloat.ilog2 n d + 1) <= 2 ^ PyFloat.ilog2 n' d)
      by (apply pow2_mono; lia).
    lra.
Qed.
Lemma truediv_value_cases (a b : Z) (f : spec_float) :
  (0 < b)%Z -> PyFloat.truediv a b = Ok f ->
  (a = 0%Z /\ PyFloat.to_Q f == 0)
  \/ ((0 < a)%Z /\ PyFloat.to_Q f == magnitude a b)
  \/ ((a < 0)%Z /\ PyFloat.to_Q f == - magnitude (- a) b).
Proof.
  intros Hb. unfold PyFloat.truediv.
  replace (b =? 0)%Z with false by (symmetry; apply Z.eqb_neq; lia).
  replace (b <? 0)%Z with false by (symmetry; apply Z.ltb_ge; lia).
  rewrite xorb_false_r, (Z.abs_eq b) by lia.
  destruct (Z.eqb_spec a 0) as [->|Ha0].
  { intros [= <-]. left. split; reflexivity. }
  destruct (PyFloat.round_ratio (a <? 0)%Z (Z.abs a) b) as [g|] eqn:Hg;
    [|discriminate].
  intros [= <-]. right.
  apply round_ratio_some_value in Hg; [|lia|assumption].
  destruct (Z.ltb_spec a 0) as [Hneg|Hpos].
  - right. split; [assumption|]. rewrite Z.abs_neq in Hg by lia. exact Hg.
  - left. split; [lia|]. rewrite Z.abs_eq in Hg by lia. exact Hg.
Qed.

(** [a / b] is monotone in [a] for a positive divisor. *)
Lemma truediv_mono (a a' b : Z) (f f' : spec_float) :
  (0 < b)%Z -> (a <= a')%Z ->
  PyFloat.truediv a b = Ok f -> PyFloat.truediv a' b = Ok f' ->
  PyFloat.to_Q f <= PyFloat.to_Q f'.
Proof.
  intros Hb Hle Hf Hf'.
  destruct (truediv_value_cases a b f Hb Hf)
    as [[Ha ->]|[[Ha ->]|[Ha ->]]];
    destruct (truediv_value_cases a' b f' Hb Hf')
      as [[Ha' ->]|[[Ha' ->]|[Ha' ->]]]; try lia;
    first
      [ lra
      | apply magnitude_mono; [lia | assumption]
      | pose proof (magnitude_mono (- a') (- a) b ltac:(lia) Hb); lra
      | pose proof (magnitude_nonneg a' b ltac:(lia) Hb);
        pose proof (magnitude_nonneg (- a) b ltac:(lia) Hb); lra
      | pose proof (magnitude_nonneg a' b ltac:(lia) Hb); lra
      | pose proof (magnitude_nonneg (- a) b ltac:(lia) Hb); lra ].
Qed.
End Monotone.

Lemma rectangle_to_polygon_normalized_inv
    (x0 y0 width height img_width img_height : Z) (l : list spec_float) :
  rectangle_to_polygon_normalized x0 y0 width height img_width img_height
  = Ok l ->
  exists cx0 cy0 cx1 cy1 : spec_float,
    PyFloat.truediv x0 img_width = Ok cx0
    /\ PyFloat.truediv y0 img_height = Ok cy0
    /\ PyFloat.truediv (x0 + width) img_width = Ok cx1
    /\ PyFloat.truediv (y0 + height) img_height = Ok cy1
    /\ l = [cx0; cy0; cx1; cy0; cx1; cy1; cx0; cy1].
Proof.
  unfold rectangle_to_polygon_normalized.
  destruct (PyFloat.truediv x0 img_width) as [cx0|]; [|discriminate].
  destruct (PyFloat.truediv y0 img_height) as [cy0|]; [|discriminate].
  destruct (PyFloat.truediv (x0 + width) img_width) as [cx1|];
    [|discriminate].
  destruct (PyFloat.truediv (y0 + height) img_height) as [cy1|];
    [|discriminate].
  cbn [rbind]. intros [= <-]. now exists cx0, cy0, cx1, cy1.
Qed.

(** X13.  In an image of positive dimensions, the polygon of a rectangle
    of non-negative width and height keeps its orientation under rounding:
    the x of the two right corners is not below the x of the two left
    corners and the y of the two bottom corners is not below the y of the
    two top corners, for coordinates of any sign and size. *)
Theorem rectangle_orientation_kept
    (x0 y0 width height img_width img_height : Z) (l : list spec_float) :
  0 < img_width -> 0 < img_height -> 0 <= width -> 0 <= height ->
  rectangle_to_polygon_normalized x0 y0 width height img_width img_height
  = Ok l ->
  exists cx0 cy0 cx1 cy1 : spec_float,
    l = [cx0; cy0; cx1; cy0; cx1; cy1; cx0; cy1]
    /\ (PyFloat.to_Q cx0 <= PyFloat.to_Q cx1)%Q
    /\ (PyFloat.to_Q cy0 <= PyFloat.to_Q cy1)%Q.
Proof.
  intros HW HH Hw Hh Hl.
  destruct (rectangle_to_polygon_normalized_inv _ _ _ _ _ _ _ Hl)
    as [cx0 [cy0 [cx1 [cy1 [Hx0 [Hy0 [Hx1 [Hy1 ->]]]]]]]].
  exists cx0, cy0, cx1, cy1. split; [reflexivity|]. split.
  - apply (truediv_mono x0 (x0 + width) img_width); try assumption. lia.
  - apply (truediv_mono y0 (y0 + height) img_height); try assumption. lia.
Qed.

Lemma rectangle_orientation_kept_witness :
  exists cx0 cy0 cx1 cy1 : spec_float,
    example_polygon = [cx0; cy0; cx1; cy0; cx1; cy1; cx0; cy1]
    /\ (PyFloat.to_Q cx0 <= PyFloat.to_Q cx1)%Q.
Proof.
  destruct (rectangle_orientation_kept 0 0 10 10 100 100 example_polygon)
    as [cx0 [cy0 [cx1 [cy1 [H [Hx _]]]]]];
    try lia.
  - vm_compute. reflexivity.
  - now exists cx0, cy0, cx1, cy1.
Defined.

(** ** The exceptions of a run *)




Section RunExceptions.
Variable ball_id : option Z.
Variable id_map : PyDict.t Z.
Variables im_width im_height : Z.



End RunExceptions.




(** ** Recovering the pixel coordinates *)


